(** * chcc: the API-site configuration store and its environment propagation

    A shallow embedding of [config.go] (the [Config] store, its YAML
    persistence and the OS-specific environment propagation) and of the
    command functions of [main.go] that drive it, with the properties of
    the store proved over the embedding.

    Go values are modelled as follows.
    - [string] is [string]; a slice is a [list]; a struct is a [Record].
    - A method with a pointer receiver [func (c *Config) m(...) r] is a
      function from the receiver's value before the call to its value after
      the call, paired with [r] when the method returns something.
    - [for i, site := range c.APISites { if site.Name == name { ... return } }]
      runs its body at the first index whose element has the name; this is
      stdpp's [list_find].
    - A returned [*APISite] that points to the loop variable is a copy of the
      element, hence an [option APISite] ([nil] is [None]). *)

From Stdlib Require Import Strings.Ascii.
From stdpp Require Import base strings list gmap pretty.

Local Open Scope string_scope.
Local Open Scope list_scope.

(** ** The data model ([config.go], lines 12-21) *)

Record APISite := mkAPISite {
  Name : string;
  BaseURL : string;
  Token : string;
}.

Record Config := mkConfig {
  APISites : list APISite;
  DefaultAPISite : string;
}.

Global Instance APISite_eq_dec : EqDecision APISite.
Proof. solve_decision. Defined.

Global Instance Config_eq_dec : EqDecision Config.
Proof. solve_decision. Defined.

(** Field assignments [site.BaseURL = v], [site.Token = v],
    [c.APISites = v] and [c.DefaultAPISite = v]. *)
Definition set_BaseURL (v : string) (site : APISite) : APISite :=
  mkAPISite (Name site) v (Token site).

Definition set_Token (v : string) (site : APISite) : APISite :=
  mkAPISite (Name site) (BaseURL site) v.

Definition set_APISites (v : list APISite) (c : Config) : Config :=
  mkConfig v (DefaultAPISite c).

Definition set_DefaultAPISite (v : string) (c : Config) : Config :=
  mkConfig (APISites c) v.

(** The store a command starts from when no configuration file exists
    ([loadConfig] in [main.go]). *)
Definition empty_config : Config := mkConfig [] "".

(** The head of every lookup loop of the file: the first index [i] and
    element [site] of [sites] with [site.Name == name]. *)
Definition range_find (name : string) (sites : list APISite)
  : option (nat * APISite) :=
  list_find (λ site, Name site = name) sites.

(** ** The store operations ([config.go]) *)

(** [func (c *Config) GetDefaultAPISite() *APISite] *)
Definition GetDefaultAPISite (c : Config) : option APISite :=
  match range_find (DefaultAPISite c) (APISites c) with
  | Some (_, site) => Some site
  | None =>
      if decide (0 < length (APISites c)) then APISites c !! 0 else None
  end.

(** [func (c *Config) GetAPISiteByName(name string) *APISite] *)
Definition GetAPISiteByName (c : Config) (name : string) : option APISite :=
  match range_find name (APISites c) with
  | Some (_, site) => Some site
  | None => None
  end.

(** [func (c *Config) AddOrUpdateAPISite(name, baseURL, token string)] *)
Definition AddOrUpdateAPISite (c : Config) (name baseURL token : string)
  : Config :=
  match range_find name (APISites c) with
  | Some (i, _) =>
      let c1 := set_APISites (alter (set_BaseURL baseURL) i (APISites c)) c in
      let c2 := set_APISites (alter (set_Token token) i (APISites c1)) c1 in
      c2
  | None =>
      let newSite := mkAPISite name baseURL token in
      set_APISites (APISites c ++ [newSite]) c
  end.

(** [func (c *Config) SetDefaultAPISite(name string) bool] *)
Definition SetDefaultAPISite (c : Config) (name : string) : Config * bool :=
  match range_find name (APISites c) with
  | Some _ => (set_DefaultAPISite name c, true)
  | None => (c, false)
  end.

(** [func (c *Config) RemoveAPISite(name string) bool].  The slice
    expression [append(c.APISites[:i], c.APISites[i+1:]...)] is
    [take i l ++ drop (S i) l]; [c.APISites[0]] is read only under the
    guard [len(c.APISites) > 0]. *)
Definition RemoveAPISite (c : Config) (name : string) : Config * bool :=
  match range_find name (APISites c) with
  | Some (i, _) =>
      let c1 :=
        set_APISites (take i (APISites c) ++ drop (S i) (APISites c)) c in
      let c2 :=
        if decide (DefaultAPISite c1 = name) then
          let c' := set_DefaultAPISite "" c1 in
          if decide (0 < length (APISites c')) then
            set_DefaultAPISite (from_option Name "" (APISites c' !! 0)) c'
          else c'
        else c1 in
      (c2, true)
  | None => (c, false)
  end.

(** ** The in-memory part of the commands ([main.go])

    Each command loads the store, changes it and saves it.  The change
    itself is a function of the loaded store. *)

(** [addAPISite], from the call of [AddOrUpdateAPISite] to the assignment of
    the default. *)
Definition addAPISite_config (config : Config) (name url token : string)
  : Config :=
  let config1 := AddOrUpdateAPISite config name url token in
  if decide (DefaultAPISite config1 = "") then
    set_DefaultAPISite name config1
  else config1.

(** The names of the sites of a store, in order. *)
Definition names (c : Config) : list string := Name <$> APISites c.

Definition has_site (c : Config) (name : string) : Prop :=
  ∃ site, site ∈ APISites c ∧ Name site = name.

(** The stores the commands [add], [set-default] and [remove] produce,
    starting from the store of a missing configuration file.  A command
    whose store operation reports [false] saves nothing and leaves the
    store as it was. *)
Inductive reachable : Config → Prop :=
  | reachable_empty : reachable empty_config
  | reachable_add c name url token :
      reachable c → reachable (addAPISite_config c name url token)
  | reachable_set_default c name :
      reachable c → reachable (SetDefaultAPISite c name).1
  | reachable_remove c name :
      reachable c → reachable (RemoveAPISite c name).1.

(** The same, for commands that are given non-empty names only. *)
Inductive reachable_named : Config → Prop :=
  | reachable_named_empty : reachable_named empty_config
  | reachable_named_add c name url token :
      name ≠ "" → reachable_named c →
      reachable_named (addAPISite_config c name url token)
  | reachable_named_set_default c name :
      reachable_named c → reachable_named (SetDefaultAPISite c name).1
  | reachable_named_remove c name :
      reachable_named c → reachable_named (RemoveAPISite c name).1.

(** On such stores no site has the empty name, and a store with a site has
    a default. *)
Definition named_inv (c : Config) : Prop :=
  (∀ site, site ∈ APISites c → Name site ≠ "")
  ∧ (APISites c ≠ [] → DefaultAPISite c ≠ "").

(** The store invariant: the names are pairwise distinct and the default,
    when it is not the empty string, is the name of a site. *)
Definition store_inv (c : Config) : Prop :=
  NoDup (names c)
  ∧ (DefaultAPISite c ≠ "" → has_site c (DefaultAPISite c)).

(** The default after the removal of the site called [name], as a function
    of the default before and of the sites that remain. *)
Definition default_after_remove (name : string) (c : Config)
    (rest : list APISite) : string :=
  if decide (DefaultAPISite c = name) then from_option Name "" (head rest)
  else DefaultAPISite c.

(** ** The operating system

    What [os], [os/exec] and [runtime] give the program.  A path holds
    nothing, an entry that cannot even be examined, or a file with its
    contents and the two permissions the program exercises. *)

Inductive node :=
  | Inaccessible
  | File (data : string) (readable writable : bool).

Inductive oserror :=
  | ErrNotExist
  | ErrPermission
  | ErrInvalid
  | ErrNoHome
  | ErrExec
  | ErrNoSpace.

Global Instance node_eq_dec : EqDecision node.
Proof. solve_decision. Defined.

Global Instance oserror_eq_dec : EqDecision oserror.
Proof. solve_decision. Defined.

Record World := mkWorld {
  GOOS : string;                     (* runtime.GOOS *)
  home : option string;              (* os.UserHomeDir, None when it fails *)
  fs : gmap string node;             (* the file system *)
  can_create : string → bool;        (* may a file be created at this path *)
  write_quota : string → option nat; (* bytes a write to this path gets
                                        through before it fails, if it does *)
  environ : gmap string string;      (* the environment of the process *)
  setx_works : bool;                 (* does running setx succeed *)
  user_environ : gmap string string; (* what setx has stored for the user *)
}.

Definition set_fs (v : gmap string node) (w : World) : World :=
  mkWorld (GOOS w) (home w) v (can_create w) (write_quota w) (environ w)
    (setx_works w) (user_environ w).

Definition set_environ (v : gmap string string) (w : World) : World :=
  mkWorld (GOOS w) (home w) (fs w) (can_create w) (write_quota w) v
    (setx_works w) (user_environ w).

Definition set_user_environ (v : gmap string string) (w : World) : World :=
  mkWorld (GOOS w) (home w) (fs w) (can_create w) (write_quota w) (environ w)
    (setx_works w) v.

(** [os.Stat(name)], keeping only its error. *)
Definition os_Stat (name : string) (w : World) : option oserror :=
  match fs w !! name with
  | None => Some ErrNotExist
  | Some Inaccessible => Some ErrPermission
  | Some (File _ _ _) => None
  end.

(** [os.IsNotExist(err)] *)
Definition os_IsNotExist (err : option oserror) : bool :=
  bool_decide (err = Some ErrNotExist).

(** [os.ReadFile(name)] *)
Definition os_ReadFile (name : string) (w : World) : string + oserror :=
  match fs w !! name with
  | None => inr ErrNotExist
  | Some Inaccessible => inr ErrPermission
  | Some (File data readable _) =>
      if readable then inl data else inr ErrPermission
  end.

(** [os.OpenFile(name, O_WRONLY|O_CREATE|O_TRUNC, 0644)], the first step
    of [os.WriteFile]: the permissions of the file it has opened, created
    when there was none and emptied when there was one, or [None] when
    the open fails. *)
Definition os_OpenFile_trunc (name : string) (w : World)
  : option (bool * bool) :=
  match fs w !! name with
  | None => if can_create w name then Some (true, true) else None
  | Some Inaccessible => None
  | Some (File _ readable writable) =>
      if writable then Some (readable, writable) else None
  end.

(** [os.WriteFile(name, data, 0644)]: opens as above, then writes.  When
    the open fails nothing has changed.  Once the file is open its old
    contents are gone; a write the system cuts short leaves the bytes
    that got through and is an error. *)
Definition os_WriteFile (name data : string) (w : World)
  : World * option oserror :=
  match os_OpenFile_trunc name w with
  | None => (w, Some ErrPermission)
  | Some (readable, writable) =>
      let holding written :=
        set_fs (<[name := File written readable writable]> (fs w)) w in
      match write_quota w name with
      | Some n =>
          if decide (n < String.length data) then
            (holding (String.substring 0 n data), Some ErrNoSpace)
          else (holding data, None)
      | None => (holding data, None)
      end
  end.

(** [os.OpenFile(name, os.O_APPEND|os.O_WRONLY, 0644)] followed by
    [f.WriteString(s)] and [f.Close()].  Without [O_CREATE] the open fails
    on a missing path; a successful open gives the effect of the write,
    which is taken to succeed (the program drops its result). *)
Definition os_OpenFile_append (name : string) (w : World)
  : option (string → World) :=
  match fs w !! name with
  | Some (File data readable true) =>
      Some (λ s, set_fs (<[name := File (data +:+ s) readable true]> (fs w)) w)
  | _ => None
  end.

Fixpoint has_NUL (s : string) : bool :=
  match s with
  | EmptyString => false
  | String a s' => if decide (a = "000"%char) then true else has_NUL s'
  end.

(** [os.Setenv(key, value)]: refused, except on Plan 9, when the value
    holds a NUL byte (the keys of this program are constants without [=] or
    NUL). *)
Definition os_Setenv (key value : string) (w : World)
  : World * option oserror :=
  if decide (GOOS w ≠ "plan9" ∧ has_NUL value = true) then (w, Some ErrInvalid)
  else (set_environ (<[key := value]> (environ w)) w, None).

(** [exec.Command("setx", key, value).Run()] *)
Definition exec_setx (key value : string) (w : World)
  : World * option oserror :=
  if setx_works w then
    (set_user_environ (<[key := value]> (user_environ w)) w, None)
  else (w, Some ErrExec).

(** [os.UserHomeDir()] *)
Definition os_UserHomeDir (w : World) : string + oserror :=
  match home w with
  | Some homeDir => inl homeDir
  | None => inr ErrNoHome
  end.

(** Is the file at [name], when there is one, readable. *)
Definition readable_if_present (name : string) (w : World) : Prop :=
  ∀ n, fs w !! name = Some n → ∃ data wr, n = File data true wr.

(** ** The libraries the program calls

    [gopkg.in/yaml.v2] and [path/filepath] are not part of the program; the
    embedding is parametric in them. *)
Class GoLibs := {
  yaml_Marshal : Config → string + unit;
  yaml_Unmarshal : string → Config + unit;
  filepath_Join : string → string → string;
}.

(** ** Errors

    One constructor per [fmt.Errorf] of [config.go], named after its
    message, and one per [log.Fatalf] of [main.go]. *)
Inductive error :=
  | ErrReadConfig (cause : oserror)     (* failed to read config file: %w *)
  | ErrParseYAML                        (* failed to parse YAML: %w *)
  | ErrMarshalYAML                      (* failed to marshal YAML: %w *)
  | ErrWriteConfig (cause : oserror)    (* failed to write config file: %w *)
  | ErrSiteNotFound (siteName : string) (* API site '%s' not found *)
  | ErrHomeDir (cause : oserror).       (* failed to get home directory: %w *)

Inductive fatal :=
  | FatalHomeDir (cause : oserror)      (* Error getting user home directory *)
  | FatalLoadConfig (err : error)       (* Error loading config: %v *)
  | FatalSaveConfig (err : error).      (* Error saving config: %v *)

(** ** Persistence ([config.go]) *)

Section Persistence.
Context `{libs : GoLibs}.

(** [func LoadConfig(filename string)], returning a [Config] or an error. *)
Definition LoadConfig (filename : string) (w : World) : Config + error :=
  match os_ReadFile filename w with
  | inr err => inr (ErrReadConfig err)
  | inl data =>
      match yaml_Unmarshal data with
      | inr _ => inr ErrParseYAML
      | inl config => inl config
      end
  end.

(** [func (c *Config) SaveConfig(filename string) error] *)
Definition SaveConfig (c : Config) (filename : string) (w : World)
  : World * option error :=
  match yaml_Marshal c with
  | inr _ => (w, Some ErrMarshalYAML)
  | inl data =>
      match os_WriteFile filename data w with
      | (w', Some err) => (w', Some (ErrWriteConfig err))
      | (w', None) => (w', None)
      end
  end.

End Persistence.

(** ** Environment propagation ([config.go]) *)

Definition nl : string := String "010"%char EmptyString.
Definition dquote : string := String "034"%char EmptyString.

(** [fmt.Sprintf] of the block appended to the startup files. *)
Definition exportLines (baseURL authToken : string) : string :=
  nl +:+ "# CHCC API Configuration" +:+ nl
  +:+ "export ANTHROPIC_BASE_URL=" +:+ dquote +:+ baseURL +:+ dquote +:+ nl
  +:+ "export ANTHROPIC_AUTH_TOKEN=" +:+ dquote +:+ authToken +:+ dquote
  +:+ nl.

(** The operating systems [main.go] has no instructions for: the
    [default:] case of the [switch runtime.GOOS] of [setDefaultAPISite]. *)
Definition unsupported_OS (w : World) : Prop :=
  GOOS w ≠ "windows" ∧ GOOS w ≠ "linux" ∧ GOOS w ≠ "darwin".

(** The two startup files of a home directory. *)
Definition rc_files (homeDir : string) : list string :=
  [homeDir +:+ "/.bashrc"; homeDir +:+ "/.zshrc"].

(** [func setWindowsEnvVars(baseURL, authToken string) error].  The errors
    of [os.Setenv] are dropped and those of [setx] only printed. *)
Definition setWindowsEnvVars (baseURL authToken : string) (w : World)
  : World * option error :=
  let w := (os_Setenv "ANTHROPIC_BASE_URL" baseURL w).1 in
  let w := (os_Setenv "ANTHROPIC_AUTH_TOKEN" authToken w).1 in
  let w := (exec_setx "ANTHROPIC_BASE_URL" baseURL w).1 in
  let w := (exec_setx "ANTHROPIC_AUTH_TOKEN" authToken w).1 in
  (w, None).

(** The body of the loop of [setUnixEnvVars] over the startup files. *)
Definition append_to_rcFile (lines : string) (w : World) (rcFile : string)
  : World :=
  match os_Stat rcFile w with
  | None =>
      match os_OpenFile_append rcFile w with
      | None => w                           (* continue *)
      | Some f_WriteString => f_WriteString lines
      end
  | Some _ => w
  end.

(** [func setUnixEnvVars(baseURL, authToken string) error] *)
Definition setUnixEnvVars (baseURL authToken : string) (w : World)
  : World * option error :=
  let w := (os_Setenv "ANTHROPIC_BASE_URL" baseURL w).1 in
  let w := (os_Setenv "ANTHROPIC_AUTH_TOKEN" authToken w).1 in
  match os_UserHomeDir w with
  | inr err => (w, Some (ErrHomeDir err))
  | inl homeDir =>
      let bashrcPath := homeDir +:+ "/.bashrc" in
      let zshrcPath := homeDir +:+ "/.zshrc" in
      let lines := exportLines baseURL authToken in
      (foldl (append_to_rcFile lines) w [bashrcPath; zshrcPath], None)
  end.

(** [func (c *Config) SetEnvironmentVariables(siteName string) error] *)
Definition SetEnvironmentVariables (c : Config) (siteName : string)
    (w : World) : World * option error :=
  match GetAPISiteByName c siteName with
  | None => (w, Some (ErrSiteNotFound siteName))
  | Some site =>
      let baseURL := BaseURL site in
      let authToken := Token site in
      if decide (GOOS w = "windows") then setWindowsEnvVars baseURL authToken w
      else setUnixEnvVars baseURL authToken w
  end.

(** ** The commands ([main.go])

    A command ends by returning ([None]) or by [log.Fatalf], which stops the
    process ([Some] of the failure).  What the commands print is left out. *)

Section Commands.
Context `{libs : GoLibs}.

(** [func getConfigFilePath() string] *)
Definition getConfigFilePath (w : World) : string + fatal :=
  match os_UserHomeDir w with
  | inr err => inr (FatalHomeDir err)
  | inl homeDir => inl (filepath_Join homeDir ".chcc.yaml")
  end.

(** [loadConfig] from the line after [configFile := getConfigFilePath()]. *)
Definition loadConfig_at (configFile : string) (w : World) : Config + fatal :=
  if os_IsNotExist (os_Stat configFile w) then
    inl (mkConfig [] "")
  else
    match LoadConfig configFile w with
    | inr err => inr (FatalLoadConfig err)
    | inl config => inl config
    end.

(** [func loadConfig() *Config] *)
Definition loadConfig (w : World) : Config + fatal :=
  match getConfigFilePath w with
  | inr f => inr f
  | inl configFile => loadConfig_at configFile w
  end.

(** The tail shared by the three commands: [getConfigFilePath],
    [SaveConfig], and [log.Fatalf] when saving fails. *)
Definition save_or_die (config : Config) (w : World) : World * option fatal :=
  match getConfigFilePath w with
  | inr f => (w, Some f)
  | inl configFile =>
      match SaveConfig config configFile w with
      | (w', Some err) => (w', Some (FatalSaveConfig err))
      | (w', None) => (w', None)
      end
  end.

(** [func addAPISite(name, url, token string)] *)
Definition addAPISite (name url token : string) (w : World)
  : World * option fatal :=
  match loadConfig w with
  | inr f => (w, Some f)
  | inl config => save_or_die (addAPISite_config config name url token) w
  end.

(** [func setDefaultAPISite(name string)] *)
Definition setDefaultAPISite (name : string) (w : World)
  : World * option fatal :=
  match loadConfig w with
  | inr f => (w, Some f)
  | inl config =>
      match SetDefaultAPISite config name with
      | (config, true) =>
          match save_or_die config w with
          | (w, Some f) => (w, Some f)
          | (w, None) => ((SetEnvironmentVariables config name w).1, None)
          end
      | (_, false) => (w, None)
      end
  end.

(** [func removeAPISite(name string)] *)
Definition removeAPISite (name : string) (w : World)
  : World * option fatal :=
  match loadConfig w with
  | inr f => (w, Some f)
  | inl config =>
      match RemoveAPISite config name with
      | (config, true) =>
          match save_or_die config w with
          | (w, Some f) => (w, Some f)
          | (w, None) =>
              if decide (0 < length (APISites config)
                         ∧ DefaultAPISite config ≠ "") then
                ((SetEnvironmentVariables config (DefaultAPISite config) w).1,
                 None)
              else (w, None)
          end
      | (_, false) => (w, None)
      end
  end.

End Commands.

(** ** A stand-in for the libraries

    A writer of [Config] in block-style YAML and a reader of what it
    writes, with string concatenation for [filepath.Join].  They serve to
    run the persistence code on concrete worlds. *)

Fixpoint split_lines (s : string) : list string :=
  match s with
  | EmptyString => [EmptyString]
  | String a s' =>
      if decide (a = "010"%char) then EmptyString :: split_lines s'
      else
        match split_lines s' with
        | l :: ls => String a l :: ls
        | [] => [String a EmptyString]
        end
  end.

Fixpoint strip_prefix (p s : string) : option string :=
  match p, s with
  | EmptyString, _ => Some s
  | String a p', String b s' =>
      if decide (a = b) then strip_prefix p' s' else None
  | String _ _, EmptyString => None
  end.

Definition demo_marshal_site (site : APISite) : string :=
  "- name: " +:+ Name site +:+ nl
  +:+ "  base_url: " +:+ BaseURL site +:+ nl
  +:+ "  token: " +:+ Token site +:+ nl.

Definition demo_Marshal (c : Config) : string + unit :=
  inl ("api_sites:" +:+ nl
       +:+ foldr (λ site acc, demo_marshal_site site +:+ acc) "" (APISites c)
       +:+ "default_api_site: " +:+ DefaultAPISite c +:+ nl).

Fixpoint demo_parse (ls : list string) : option (list APISite * string) :=
  match ls with
  | [l; EmptyString] =>
      d ← strip_prefix "default_api_site: " l; Some ([], d)
  | l1 :: l2 :: l3 :: rest =>
      n ← strip_prefix "- name: " l1;
      u ← strip_prefix "  base_url: " l2;
      t ← strip_prefix "  token: " l3;
      '(sites, d) ← demo_parse rest;
      Some (mkAPISite n u t :: sites, d)
  | _ => None
  end.

Definition demo_Unmarshal (data : string) : Config + unit :=
  match split_lines data with
  | l :: ls =>
      if decide (l = "api_sites:") then
        match demo_parse ls with
        | Some (sites, d) => inl (mkConfig sites d)
        | None => inr ()
        end
      else inr ()
  | [] => inr ()
  end.

Definition demo_libs : GoLibs := {|
  yaml_Marshal := demo_Marshal;
  yaml_Unmarshal := demo_Unmarshal;
  filepath_Join := λ dir file, dir +:+ "/" +:+ file;
|}.

(** Concrete stores and worlds used in the examples. *)
Definition site_A : APISite := mkAPISite "A" "url1" "tok1".
Definition site_B : APISite := mkAPISite "B" "url2" "tok2".
Definition config_AB : Config := mkConfig [site_A; site_B] "A".

(** A store as read from a hand-written file that lists a site and names no
    default. *)
Definition config_no_default : Config := mkConfig [site_A] "".

Definition any_create : string → bool := λ _, true.
Definition no_quota : string → option nat := λ _, None.

(** A Linux home with a writable [.bashrc], a read-only [.zshrc] and no
    configuration file. *)
Definition linux_world : World := {|
  GOOS := "linux";
  home := Some "/home/u";
  fs := {[ "/home/u/.bashrc" := File "# rc" true true;
           "/home/u/.zshrc" := File "# z" true false ]};
  can_create := any_create;
  write_quota := no_quota;
  environ := ∅;
  setx_works := false;
  user_environ := ∅;
|}.

(** A Plan 9 machine: neither Windows nor a Unix. *)
Definition plan9_world : World := {|
  GOOS := "plan9";
  home := Some "/usr/glenda";
  fs := ∅;
  can_create := any_create;
  write_quota := no_quota;
  environ := ∅;
  setx_works := false;
  user_environ := ∅;
|}.

Definition config_path : string := "/home/u/.chcc.yaml".

(** [linux_world] with a configuration file the user may not read, and
    with one that is not a serialized store. *)
Definition unreadable_world : World :=
  set_fs (<[config_path := File "api_sites:" false true]> (fs linux_world))
    linux_world.

Definition garbage_world : World :=
  set_fs (<[config_path := File "garbage" true true]> (fs linux_world))
    linux_world.

(** [linux_world] after [config_AB] has been saved with the stand-in codec. *)
Definition saved_world : World :=
  (SaveConfig (libs := demo_libs) config_AB config_path linux_world).1.

(** [saved_world] where a write to a file gets ten bytes through. *)
Definition full_disk_world : World :=
  mkWorld (GOOS saved_world) (home saved_world) (fs saved_world)
    (can_create saved_world) (λ _, Some 10) (environ saved_world)
    (setx_works saved_world) (user_environ saved_world).

(** ** Printing ([config.go] and [main.go])

    What a function writes to the standard output is the list of the
    strings of its [fmt.Printf] and [fmt.Println] calls, in order.  A Go
    [int] that holds a length or an index is an integer of [Z]; the slice
    expression [s[:k]] panics when [k] is out of range, which is [None]. *)

(** [len(s)] of a string, and [func min(a, b int) int]. *)
Definition len (s : string) : Z := Z.of_nat (String.length s).

Definition min (a b : Z) : Z := if decide (a < b)%Z then a else b.

(** [s[:k]] *)
Definition slice_to (s : string) (k : Z) : option string :=
  if decide (0 ≤ k ≤ len s)%Z then Some (String.substring 0 (Z.to_nat k) s)
  else None.

(** The three [fmt.Printf] of one turn of the loop of [PrintConfig]. *)
Definition PrintConfig_site (i : nat) (site : APISite)
  : option (list string) :=
  shown ← slice_to (Token site) (min (len (Token site)) 20);
  Some ["  " +:+ pretty (Z.of_nat i + 1)%Z +:+ ". " +:+ Name site +:+ nl;
        "     URL: " +:+ BaseURL site +:+ nl;
        "     Token: " +:+ shown +:+ "..." +:+ nl].

Fixpoint PrintConfig_loop (i : nat) (sites : list APISite)
  : option (list string) :=
  match sites with
  | [] => Some []
  | site :: sites' =>
      out ← PrintConfig_site i site;
      outs ← PrintConfig_loop (S i) sites';
      Some (out ++ outs)
  end.

(** [func (c *Config) PrintConfig()] *)
Definition PrintConfig (c : Config) : option (list string) :=
  outs ← PrintConfig_loop 0 (APISites c);
  Some (("Default API Site: " +:+ DefaultAPISite c +:+ nl)
        :: ("Available API Sites:" +:+ nl)
        :: outs).

(** [listAPISites] from the line after [config := loadConfig()]. *)
Definition listAPISites_config (config : Config) : option (list string) :=
  if decide (length (APISites config) = 0) then
    Some ["No API sites configured." +:+ nl;
          nl +:+ "Use 'chcc add --help' to add your first API site." +:+ nl]
  else
    printed ← PrintConfig config;
    tail ←
      match GetDefaultAPISite config with
      | Some defaultSite =>
          shown ← slice_to (Token defaultSite)
                    (min (len (Token defaultSite)) 10);
          Some ["Name: " +:+ Name defaultSite +:+ nl;
                "URL: " +:+ BaseURL defaultSite +:+ nl;
                "Token: " +:+ shown +:+ "..." +:+ nl]
      | None =>
          Some ["No default API site set" +:+ nl;
                "Use 'chcc set-default --name <site-name>' to set a default site."
                +:+ nl]
      end;
    Some ((("=== CHCC Configuration ===" +:+ nl) :: printed)
          ++ ((nl +:+ "=== Default API Site ===" +:+ nl) :: tail)).

(** What [addAPISite] prints from the line after [config := loadConfig()]
    to the assignment of the default. *)
Definition addAPISite_prints (config : Config) (name url token : string)
  : list string :=
  let existing := GetAPISiteByName config name in
  let first :=
    match existing with
    | Some _ => "Updating existing API site: " +:+ name +:+ nl
    | None => "Adding new API site: " +:+ name +:+ nl
    end in
  let config1 := AddOrUpdateAPISite config name url token in
  if decide (DefaultAPISite config1 = "") then
    [first; "Set " +:+ name +:+ " as default API site (first site added)" +:+ nl]
  else [first].

(** A Windows machine on which [setx] works. *)
Definition windows_world : World := {|
  GOOS := "windows";
  home := Some "C:/Users/u";
  fs := ∅;
  can_create := any_create;
  write_quota := no_quota;
  environ := ∅;
  setx_works := true;
  user_environ := ∅;
|}.

(** A machine where the home directory is not known. *)
Definition homeless_world : World := {|
  GOOS := "linux";
  home := None;
  fs := ∅;
  can_create := any_create;
  write_quota := no_quota;
  environ := ∅;
  setx_works := false;
  user_environ := ∅;
|}.

(** * Properties *)

(** ** Lookup by name *)

Lemma range_find_Some name sites i site :
  range_find name sites = Some (i, site) ↔
  sites !! i = Some site ∧ Name site = name
  ∧ ∀ j other, sites !! j = Some other → j < i → Name other ≠ name.
Proof. apply (list_find_Some (λ s, Name s = name)). Qed.

Lemma range_find_None name sites :
  range_find name sites = None ↔ ∀ site, site ∈ sites → Name site ≠ name.
Proof.
  unfold range_find.
  rewrite (list_find_None (λ s, Name s = name)), Forall_forall. done.
Qed.

Lemma has_site_range_find c name :
  has_site c name ↔ is_Some (range_find name (APISites c)).
Proof.
  split.
  - intros (site & Hin & Hname).
    unfold range_find.
    by eapply (list_find_elem_of (λ s, Name s = name)).
  - intros [[i site] Hfind]. apply range_find_Some in Hfind as (Hi & Hname & _).
    exists site. split; [by eapply list_elem_of_lookup_2 | done].
Qed.

Lemma not_has_site_range_find c name :
  ¬ has_site c name ↔ range_find name (APISites c) = None.
Proof.
  rewrite has_site_range_find, <- eq_None_not_Some. done.
Qed.

Lemma has_site_names c name : has_site c name ↔ name ∈ names c.
Proof.
  unfold has_site, names. rewrite list_elem_of_fmap. split.
  - intros (site & Hin & Hname). by exists site.
  - intros (site & Hname & Hin). by exists site.
Qed.

(** The list splits around the index the loop stops at. *)
Lemma range_find_split name sites i site :
  range_find name sites = Some (i, site) →
  sites = take i sites ++ site :: drop (S i) sites
  ∧ length (take i sites) = i
  ∧ Name site = name
  ∧ ∀ other, other ∈ take i sites → Name other ≠ name.
Proof.
  intros (Hi & Hname & Hbefore)%range_find_Some.
  split; [by rewrite take_drop_middle|].
  split; [apply length_take_le, Nat.lt_le_incl; by eapply lookup_lt_Some|].
  split; [done|].
  intros other (j & Hj)%list_elem_of_lookup_1.
  apply lookup_take_Some in Hj as [Hj Hlt]. eauto.
Qed.

Lemma range_find_here name l1 site l2 :
  (∀ other, other ∈ l1 → Name other ≠ name) → Name site = name →
  range_find name (l1 ++ site :: l2) = Some (length l1, site).
Proof.
  intros Hl1 Hname. apply range_find_Some. split_and!.
  - by rewrite list_lookup_middle.
  - done.
  - intros j other Hj Hlt. rewrite lookup_app_l in Hj by done.
    apply Hl1. by eapply list_elem_of_lookup_2.
Qed.

(** The two assignments of the update branch amount to one replacement. *)
Lemma alter_fields baseURL token i (sites : list APISite) site :
  sites !! i = Some site →
  alter (set_Token token) i (alter (set_BaseURL baseURL) i sites)
  = <[i := mkAPISite (Name site) baseURL token]> sites.
Proof.
  intros Hi. apply list_eq. intros j. destruct (decide (i = j)) as [<-|Hne].
  - rewrite !list_lookup_alter_eq, Hi.
    by rewrite list_lookup_insert_eq by (by eapply lookup_lt_Some).
  - by rewrite !list_lookup_alter_ne, list_lookup_insert_ne.
Qed.

(** ** [AddOrUpdateAPISite] *)

Lemma AddOrUpdateAPISite_update c name baseURL token i old :
  range_find name (APISites c) = Some (i, old) →
  AddOrUpdateAPISite c name baseURL token
  = set_APISites (<[i := mkAPISite name baseURL token]> (APISites c)) c.
Proof.
  intros Hfind. unfold AddOrUpdateAPISite. rewrite Hfind. simpl.
  apply range_find_Some in Hfind as (Hi & Hname & _).
  rewrite (alter_fields _ _ _ _ old) by done. by rewrite Hname.
Qed.

Lemma AddOrUpdateAPISite_append c name baseURL token :
  range_find name (APISites c) = None →
  AddOrUpdateAPISite c name baseURL token
  = set_APISites (APISites c ++ [mkAPISite name baseURL token]) c.
Proof. intros Hfind. unfold AddOrUpdateAPISite. by rewrite Hfind. Qed.

Lemma range_find_insert name sites i old new :
  range_find name sites = Some (i, old) → Name new = name →
  range_find name (<[i := new]> sites) = Some (i, new).
Proof.
  intros (Hi & _ & Hbefore)%range_find_Some Hnew.
  apply range_find_Some. split_and!.
  - apply list_lookup_insert_eq. by eapply lookup_lt_Some.
  - done.
  - intros j other Hj Hlt. rewrite list_lookup_insert_ne in Hj by lia. eauto.
Qed.

Lemma range_find_snoc name sites new :
  range_find name sites = None → Name new = name →
  range_find name (sites ++ [new]) = Some (length sites, new).
Proof.
  intros Hnone Hnew. apply range_find_here; [|done].
  by apply range_find_None.
Qed.

Lemma names_insert_same (sites : list APISite) i old new :
  sites !! i = Some old → Name new = Name old →
  Name <$> <[i := new]> sites = Name <$> sites.
Proof.
  intros Hi Hname. rewrite list_fmap_insert. apply list_insert_id.
  by rewrite list_lookup_fmap, Hi, Hname.
Qed.

(** C1.  [AddOrUpdateAPISite] on a store that has a site of the given name
    replaces the first such site, at its index, by the site made of the
    name and the new URL and token: the length and the order of the names
    are as before, and [GetAPISiteByName] then returns the new fields.  On a
    store without such a site it appends the new site at the end (and
    [GetAPISiteByName] returns it). *)
Theorem AddOrUpdateAPISite_spec c name baseURL token :
  let c' := AddOrUpdateAPISite c name baseURL token in
  let newSite := mkAPISite name baseURL token in
  (has_site c name →
     ∃ i old,
       APISites c !! i = Some old ∧ Name old = name
       ∧ (∀ j other, APISites c !! j = Some other → j < i → Name other ≠ name)
       ∧ APISites c' = <[i := newSite]> (APISites c)
       ∧ length (APISites c') = length (APISites c)
       ∧ names c' = names c
       ∧ GetAPISiteByName c' name = Some newSite)
  ∧ (¬ has_site c name →
       APISites c' = APISites c ++ [newSite]
       ∧ GetAPISiteByName c' name = Some newSite).
Proof.
  intros c' newSite. split.
  - intros [[i old] Hfind]%has_site_range_find.
    pose proof Hfind as (Hi & Hname & Hbefore)%range_find_Some.
    exists i, old. subst c'.
    rewrite (AddOrUpdateAPISite_update _ _ _ _ i old) by done.
    unfold GetAPISiteByName, names. simpl. split_and!; try done.
    + apply length_insert.
    + by apply (names_insert_same _ _ old).
    + by rewrite (range_find_insert _ _ _ old newSite).
  - intros Hfind%not_has_site_range_find. subst c'.
    rewrite AddOrUpdateAPISite_append by done.
    unfold GetAPISiteByName. simpl. split; [done|].
    by rewrite (range_find_snoc _ _ newSite).
Qed.

Lemma AddOrUpdateAPISite_spec_witness :
  (has_site config_AB "A"
   ∧ length (APISites (AddOrUpdateAPISite config_AB "A" "url3" "tok3"))
     = length (APISites config_AB)
   ∧ GetAPISiteByName (AddOrUpdateAPISite config_AB "A" "url3" "tok3") "A"
     = Some (mkAPISite "A" "url3" "tok3"))
  ∧ (¬ has_site config_AB "C"
     ∧ APISites (AddOrUpdateAPISite config_AB "C" "url3" "tok3")
       = APISites config_AB ++ [mkAPISite "C" "url3" "tok3"]).
Proof.
  assert (HA : has_site config_AB "A")
    by (exists site_A; split; [left | reflexivity]).
  assert (HC : ¬ has_site config_AB "C")
    by (apply not_has_site_range_find; reflexivity).
  split.
  - destruct (proj1 (AddOrUpdateAPISite_spec config_AB "A" "url3" "tok3") HA)
      as (i & old & _ & _ & _ & _ & Hlen & _ & Hget).
    split_and!; [exact HA | exact Hlen | exact Hget].
  - destruct (proj2 (AddOrUpdateAPISite_spec config_AB "C" "url3" "tok3") HC)
      as [Happ _].
    split; [exact HC | exact Happ].
Defined.

Lemma AddOrUpdateAPISite_default c name baseURL token :
  DefaultAPISite (AddOrUpdateAPISite c name baseURL token) = DefaultAPISite c.
Proof.
  unfold AddOrUpdateAPISite.
  by destruct (range_find name (APISites c)) as [[i old]|].
Qed.

Lemma addAPISite_config_default c name url token :
  DefaultAPISite (addAPISite_config c name url token)
  = (if decide (DefaultAPISite c = "") then name else DefaultAPISite c).
Proof.
  unfold addAPISite_config. rewrite AddOrUpdateAPISite_default.
  destruct (decide (DefaultAPISite c = "")); [done|].
  apply AddOrUpdateAPISite_default.
Qed.

(** C10.  [AddOrUpdateAPISite] leaves [DefaultAPISite] as it was, in both
    of its branches; the default is assigned by [addAPISite], which sets it
    to the added name exactly when it was the empty string and otherwise
    keeps it, and which changes the sites as [AddOrUpdateAPISite] does. *)
Theorem AddOrUpdateAPISite_keeps_default c name baseURL token :
  DefaultAPISite (AddOrUpdateAPISite c name baseURL token) = DefaultAPISite c
  ∧ DefaultAPISite (addAPISite_config c name baseURL token)
    = (if decide (DefaultAPISite c = "") then name else DefaultAPISite c)
  ∧ APISites (addAPISite_config c name baseURL token)
    = APISites (AddOrUpdateAPISite c name baseURL token).
Proof.
  split; [apply AddOrUpdateAPISite_default|].
  split; [apply addAPISite_config_default|].
  unfold addAPISite_config.
  by destruct (decide (DefaultAPISite (AddOrUpdateAPISite _ _ _ _) = "")).
Qed.

(** ** [SetDefaultAPISite] *)

(** C4.  [SetDefaultAPISite] returns [true] exactly when the store has a
    site of the given name; it then sets [DefaultAPISite] to the name and
    leaves the sites as they were.  Otherwise it returns [false] and the
    store, sites and default, is the one it was given. *)
Theorem SetDefaultAPISite_spec c name :
  ((SetDefaultAPISite c name).2 = true ↔ has_site c name)
  ∧ (has_site c name →
       SetDefaultAPISite c name = (mkConfig (APISites c) name, true))
  ∧ (¬ has_site c name → SetDefaultAPISite c name = (c, false)).
Proof.
  unfold SetDefaultAPISite. rewrite has_site_range_find.
  destruct (range_find name (APISites c)) as [[i site]|]; simpl.
  - split_and!; [split; eauto | done | intros []; eauto].
  - split_and!; [split; [done | by intros [??]] | by intros [??] | done].
Qed.

Lemma SetDefaultAPISite_spec_witness :
  (has_site config_AB "B"
   ∧ SetDefaultAPISite config_AB "B" = (mkConfig (APISites config_AB) "B", true))
  ∧ (¬ has_site config_AB "C"
     ∧ SetDefaultAPISite config_AB "C" = (config_AB, false)).
Proof.
  assert (HB : has_site config_AB "B")
    by (exists site_B; split; [right; left | reflexivity]).
  assert (HC : ¬ has_site config_AB "C")
    by (apply not_has_site_range_find; reflexivity).
  destruct (SetDefaultAPISite_spec config_AB "B") as (_ & Hfound & _).
  destruct (SetDefaultAPISite_spec config_AB "C") as (_ & _ & Habsent).
  split; (split; [done|]); [by apply Hfound | by apply Habsent].
Defined.

(** ** [RemoveAPISite] *)

Lemma RemoveAPISite_found c name i site :
  range_find name (APISites c) = Some (i, site) →
  let rest := take i (APISites c) ++ drop (S i) (APISites c) in
  RemoveAPISite c name
  = (mkConfig rest (default_after_remove name c rest), true).
Proof.
  intros Hfind rest. unfold RemoveAPISite, default_after_remove.
  rewrite Hfind. simpl. fold rest.
  destruct (decide (DefaultAPISite c = name)); [|done]. simpl.
  destruct (decide (0 < length rest)) as [Hlen|Hlen].
  - unfold set_DefaultAPISite. simpl. by rewrite head_lookup.
  - destruct rest; [done | simpl in Hlen; lia].
Qed.

Lemma RemoveAPISite_absent c name :
  range_find name (APISites c) = None → RemoveAPISite c name = (c, false).
Proof. intros Hfind. unfold RemoveAPISite. by rewrite Hfind. Qed.

(** C3.  On a store that has a site of the given name, [RemoveAPISite]
    returns [true] and deletes the first such site, the sites before and
    after it staying in their order; when the default was that name, the
    default becomes the name of the first site that remains, or the empty
    string when none remains; when the default was another name, it is as
    before.  On a store without such a site it returns [false] (and the
    store is the one it was given). *)
Theorem RemoveAPISite_spec c name :
  (has_site c name →
     ∃ l1 site l2,
       APISites c = l1 ++ site :: l2 ∧ Name site = name
       ∧ (∀ other, other ∈ l1 → Name other ≠ name)
       ∧ (RemoveAPISite c name).2 = true
       ∧ APISites (RemoveAPISite c name).1 = l1 ++ l2
       ∧ (DefaultAPISite c = name →
            DefaultAPISite (RemoveAPISite c name).1
            = from_option Name "" (head (l1 ++ l2)))
       ∧ (DefaultAPISite c ≠ name →
            DefaultAPISite (RemoveAPISite c name).1 = DefaultAPISite c))
  ∧ (¬ has_site c name → RemoveAPISite c name = (c, false)).
Proof.
  split.
  - intros [[i site] Hfind]%has_site_range_find.
    pose proof (range_find_split _ _ _ _ Hfind) as (Hsplit & _ & Hname & Hl1).
    exists (take i (APISites c)), site, (drop (S i) (APISites c)).
    rewrite (RemoveAPISite_found _ _ _ _ Hfind). simpl.
    unfold default_after_remove. split_and!; try done.
    + intros Hdef. by rewrite decide_True.
    + intros Hdef. by rewrite decide_False.
  - intros Hfind%not_has_site_range_find. by apply RemoveAPISite_absent.
Qed.

Lemma RemoveAPISite_spec_witness :
  (has_site config_AB "A"
   ∧ (RemoveAPISite config_AB "A").2 = true)
  ∧ (¬ has_site config_AB "C"
     ∧ RemoveAPISite config_AB "C" = (config_AB, false)).
Proof.
  assert (HA : has_site config_AB "A")
    by (exists site_A; split; [left | reflexivity]).
  assert (HC : ¬ has_site config_AB "C")
    by (apply not_has_site_range_find; reflexivity).
  split.
  - destruct (proj1 (RemoveAPISite_spec config_AB "A") HA)
      as (l1 & site & l2 & _ & _ & _ & Hok & _).
    split; [exact HA | exact Hok].
  - split; [exact HC | exact (proj2 (RemoveAPISite_spec config_AB "C") HC)].
Defined.

(** ** The command [add] and the default *)

(** The guard of [addAPISite], read as it is written: run on a store
    whose default is the empty string, as the store of a missing file is,
    the command sets the default to the added name; run on a store whose
    default is not empty it leaves the default as it was. *)
Lemma addAPISite_default c name url token :
  DefaultAPISite (addAPISite_config empty_config name url token) = name
  ∧ (DefaultAPISite c = "" →
       DefaultAPISite (addAPISite_config c name url token) = name)
  ∧ (DefaultAPISite c ≠ "" →
       DefaultAPISite (addAPISite_config c name url token)
       = DefaultAPISite c).
Proof.
  split; [done|].
  rewrite addAPISite_config_default.
  split; intros Hdef; [by rewrite decide_True | by rewrite decide_False].
Qed.

(** On the stores of the data model the first profile does become the
    default: a store without sites whose default is empty or names a site
    has the empty default, and [add] makes the added name its default. *)
Lemma addAPISite_default_no_site c name url token :
  store_inv c → APISites c = [] →
  DefaultAPISite (addAPISite_config c name url token) = name.
Proof.
  intros [_ Hdef] Hsites. rewrite addAPISite_config_default.
  destruct (decide (DefaultAPISite c = "")) as [|Hne]; [done|].
  destruct (Hdef Hne) as (site & Hin & _).
  rewrite Hsites in Hin. by apply elem_of_nil in Hin.
Qed.

(** C2, where the program departs from it.  The store that lists the
    site [A] and names no default is a store of the data model: its names
    are distinct and its default is empty.  It holds one site, so by C2
    an [add] leaves its default as it is.  The command [add] of [B]
    makes [B] the default instead, and prints that [B] is the first site
    added: the guard asks whether the default is empty where it means to
    ask whether there is no site yet. *)
Theorem addAPISite_first_site_added :
  store_inv config_no_default
  ∧ APISites config_no_default = [site_A]
  ∧ DefaultAPISite config_no_default = ""
  ∧ addAPISite_config config_no_default "B" "url2" "tok2"
    = mkConfig [site_A; site_B] "B"
  ∧ addAPISite_prints config_no_default "B" "url2" "tok2"
    = ["Adding new API site: B" +:+ nl;
       "Set B as default API site (first site added)" +:+ nl].
Proof.
  split_and!; try reflexivity.
  split; [|done].
  change (names config_no_default) with ["A"]. apply NoDup_singleton.
Qed.

(** A site with the empty name makes the same happen on stores the
    commands themselves produce: the store holds a site, its default is
    the empty string, and the next [add] changes the default. *)
Example addAPISite_empty_name :
  let c := addAPISite_config empty_config "" "url0" "tok0" in
  reachable c ∧ c = mkConfig [mkAPISite "" "url0" "tok0"] ""
  ∧ DefaultAPISite (addAPISite_config c "B" "url2" "tok2") = "B".
Proof. split; [apply reachable_add, reachable_empty | done]. Qed.

(** ** The invariant of the store *)

Lemma AddOrUpdateAPISite_names c name baseURL token :
  names (AddOrUpdateAPISite c name baseURL token)
  = if decide (name ∈ names c) then names c else names c ++ [name].
Proof.
  destruct (decide (name ∈ names c)) as [Hhas|Hhas];
    rewrite <- has_site_names in Hhas.
  - apply has_site_range_find in Hhas as [[i old] Hfind].
    rewrite (AddOrUpdateAPISite_update _ _ _ _ i old) by done.
    apply range_find_Some in Hfind as (Hi & Hname & _).
    by apply (names_insert_same _ _ old).
  - apply not_has_site_range_find in Hhas.
    rewrite AddOrUpdateAPISite_append by done.
    unfold names. simpl. by rewrite fmap_app.
Qed.

Lemma addAPISite_config_sites c name url token :
  APISites (addAPISite_config c name url token)
  = APISites (AddOrUpdateAPISite c name url token).
Proof.
  unfold addAPISite_config.
  by destruct (decide (DefaultAPISite (AddOrUpdateAPISite _ _ _ _) = "")).
Qed.

Lemma addAPISite_config_names c name url token :
  names (addAPISite_config c name url token)
  = names (AddOrUpdateAPISite c name url token).
Proof.
  unfold addAPISite_config.
  by destruct (decide (DefaultAPISite (AddOrUpdateAPISite _ _ _ _) = "")).
Qed.

Lemma addAPISite_config_inv c name url token :
  store_inv c → store_inv (addAPISite_config c name url token).
Proof.
  intros [Hnodup Hdef]. unfold store_inv.
  rewrite !has_site_names, addAPISite_config_names, AddOrUpdateAPISite_names,
    addAPISite_config_default.
  rewrite has_site_names in Hdef.
  destruct (decide (name ∈ names c)) as [Hhas|Hhas].
  - split; [done|].
    destruct (decide (DefaultAPISite c = "")); auto.
  - split.
    + apply NoDup_app. split_and!; [done| |apply NoDup_singleton].
      intros x Hx ->%list_elem_of_singleton. done.
    + rewrite elem_of_app, list_elem_of_singleton.
      destruct (decide (DefaultAPISite c = "")); auto.
Qed.

Lemma SetDefaultAPISite_inv c name :
  store_inv c → store_inv (SetDefaultAPISite c name).1.
Proof.
  intros [Hnodup Hdef]. unfold SetDefaultAPISite.
  destruct (range_find name (APISites c)) as [[i site]|] eqn:Hfind;
    [|done].
  split; [done|]. intros _. simpl.
  apply has_site_range_find. unfold set_DefaultAPISite. simpl. eauto.
Qed.

Lemma RemoveAPISite_inv c name :
  store_inv c → store_inv (RemoveAPISite c name).1.
Proof.
  intros [Hnodup Hdef].
  destruct (range_find name (APISites c)) as [[i site]|] eqn:Hfind;
    [|by rewrite RemoveAPISite_absent].
  rewrite (RemoveAPISite_found _ _ _ _ Hfind). simpl.
  pose proof (range_find_split _ _ _ _ Hfind) as (Hsplit & _ & Hname & _).
  set (l1 := take i (APISites c)) in *.
  set (l2 := drop (S i) (APISites c)) in *.
  unfold store_inv, names, has_site in *. simpl.
  rewrite Hsplit, fmap_app, fmap_cons, Hname in Hnodup.
  apply NoDup_app in Hnodup as (Hn1 & Hdisj & Hn2).
  apply NoDup_cons in Hn2 as [Hnotin Hn2].
  split.
  - rewrite fmap_app. apply NoDup_app. split_and!; [done| |done].
    intros x Hx Hx2. apply (Hdisj x Hx). by right.
  - unfold default_after_remove.
    destruct (decide (DefaultAPISite c = name)) as [Heq|Hne].
    + destruct (l1 ++ l2) as [|first rest] eqn:Hrest; [done|].
      intros _. exists first. split; [left | done].
    + intros Hnonempty.
      destruct (Hdef Hnonempty) as (other & Hin & Hother).
      exists other. split; [|done].
      rewrite Hsplit in Hin.
      apply elem_of_app.
      apply elem_of_app in Hin as [Hin|Hin]; [by left|].
      apply elem_of_cons in Hin as [->|Hin]; [congruence | by right].
Qed.

Lemma store_inv_reachable c : reachable c → store_inv c.
Proof.
  induction 1 as [|c name url token _ IH|c name _ IH|c name _ IH].
  - split; [apply NoDup_nil_2 | done].
  - by apply addAPISite_config_inv.
  - by apply SetDefaultAPISite_inv.
  - by apply RemoveAPISite_inv.
Qed.

(** C5.  Every store that [add], [set-default] and [remove] produce from
    the empty store has pairwise distinct site names, and its default, when
    it is not the empty string, is the name of one of its sites. *)
Theorem reachable_store_inv c :
  reachable c →
  NoDup (names c) ∧ (DefaultAPISite c ≠ "" → has_site c (DefaultAPISite c)).
Proof.
  intros Hreach. by apply store_inv_reachable.
Qed.

Lemma reachable_store_inv_witness :
  reachable config_AB
  ∧ NoDup (names config_AB)
  ∧ (DefaultAPISite config_AB ≠ "" → has_site config_AB (DefaultAPISite config_AB)).
Proof.
  assert (Hreach : reachable config_AB).
  { apply (reachable_add (addAPISite_config empty_config "A" "url1" "tok1")
             "B" "url2" "tok2").
    apply reachable_add, reachable_empty. }
  split; [exact Hreach | exact (reachable_store_inv config_AB Hreach)].
Defined.

(** *** Stores built from non-empty names

    What C2 says of the number of sites holds on the stores the commands
    build when every added name is non-empty: there the default is empty
    exactly when the store has no site. *)

Lemma reachable_named_reachable c : reachable_named c → reachable c.
Proof. induction 1; by constructor. Qed.

Lemma RemoveAPISite_named_inv c name :
  named_inv c → named_inv (RemoveAPISite c name).1.
Proof.
  intros [Hnames Hdef].
  destruct (range_find name (APISites c)) as [[i site]|] eqn:Hfind;
    [|by rewrite RemoveAPISite_absent].
  rewrite (RemoveAPISite_found _ _ _ _ Hfind). simpl.
  pose proof (range_find_split _ _ _ _ Hfind) as (Hsplit & _ & Hname & _).
  set (l1 := take i (APISites c)) in *.
  set (l2 := drop (S i) (APISites c)) in *.
  assert (Hsub : ∀ other, other ∈ l1 ++ l2 → Name other ≠ "").
  { intros other Hin. apply Hnames. rewrite Hsplit.
    apply elem_of_app. apply elem_of_app in Hin as [Hin|Hin]; [by left|].
    right. by right. }
  split; simpl; [done|].
  intros Hrest. unfold default_after_remove.
  destruct (decide (DefaultAPISite c = name)).
  - destruct (l1 ++ l2) as [|first rest]; [done|]. simpl.
    apply Hsub. by left.
  - apply Hdef. rewrite Hsplit. by destruct l1.
Qed.

Lemma AddOrUpdateAPISite_elem_of c name baseURL token site :
  site ∈ APISites (AddOrUpdateAPISite c name baseURL token) →
  Name site = name ∨ site ∈ APISites c.
Proof.
  destruct (range_find name (APISites c)) as [[i old]|] eqn:Hfind.
  - rewrite (AddOrUpdateAPISite_update _ _ _ _ i old) by done. simpl.
    intros (j & Hj)%list_elem_of_lookup_1.
    destruct (decide (i = j)) as [<-|Hne].
    + apply range_find_Some in Hfind as (Hi & _).
      rewrite list_lookup_insert_eq in Hj by (by eapply lookup_lt_Some).
      left. by injection Hj as <-.
    + rewrite list_lookup_insert_ne in Hj by done.
      right. by eapply list_elem_of_lookup_2.
  - rewrite AddOrUpdateAPISite_append by done. simpl.
    intros [Hin|Hin%list_elem_of_singleton]%elem_of_app; [by right|].
    left. by rewrite Hin.
Qed.

Lemma reachable_named_inv c : reachable_named c → named_inv c.
Proof.
  induction 1 as [|c name url token Hname _ [Hnames Hdef]
                  |c name _ [Hnames Hdef]|c name _ IH].
  - split; [by intros site ?%elem_of_nil | done].
  - split.
    + intros site. rewrite addAPISite_config_sites.
      intros [->|Hin]%AddOrUpdateAPISite_elem_of; auto.
    + intros _. rewrite addAPISite_config_default.
      by destruct (decide (DefaultAPISite c = "")).
  - unfold SetDefaultAPISite.
    destruct (range_find name (APISites c)) as [[i site]|] eqn:Hfind;
      [|done].
    split; [done|]. intros _. simpl. intros ->.
    apply range_find_Some in Hfind as (Hi & Hempty & _).
    by apply (Hnames site); [eapply list_elem_of_lookup_2|].
  - by apply RemoveAPISite_named_inv.
Qed.

(** On the stores the commands build from non-empty names, [add] sets the
    default to the added name when the store has no site and leaves the
    default as it was when the store has a site. *)
Lemma addAPISite_default_named c name url token :
  reachable_named c →
  (APISites c = [] →
     DefaultAPISite (addAPISite_config c name url token) = name)
  ∧ (APISites c ≠ [] →
       DefaultAPISite (addAPISite_config c name url token)
       = DefaultAPISite c).
Proof.
  intros Hreach. rewrite addAPISite_config_default.
  destruct (reachable_named_inv c Hreach) as [_ Hdef].
  destruct (store_inv_reachable c (reachable_named_reachable c Hreach))
    as [_ Hsite].
  split; intros Hsites.
  - destruct (decide (DefaultAPISite c = "")) as [|Hne]; [done|].
    destruct (Hsite Hne) as (site & Hin & _).
    rewrite Hsites in Hin. by apply elem_of_nil in Hin.
  - by rewrite decide_False by auto.
Qed.

(** ** Loading and saving *)

Section PersistenceFacts.
Context `{libs : GoLibs}.

Lemma os_ReadFile_missing name w :
  fs w !! name = None → os_ReadFile name w = inr ErrNotExist.
Proof. intros Hmiss. unfold os_ReadFile. by rewrite Hmiss. Qed.

(** [LoadConfig] alone does not accept a missing file; [loadConfig] asks
    [os.Stat] first. *)
Lemma LoadConfig_missing filename w :
  fs w !! filename = None →
  LoadConfig filename w = inr (ErrReadConfig ErrNotExist).
Proof.
  intros Hmiss. unfold LoadConfig. by rewrite os_ReadFile_missing.
Qed.

Lemma os_IsNotExist_Stat name w :
  os_IsNotExist (os_Stat name w) = true ↔ fs w !! name = None.
Proof.
  unfold os_IsNotExist, os_Stat.
  destruct (fs w !! name) as [[|data r wr]|]; simpl; split; done.
Qed.

Lemma loadConfig_at_missing configFile w :
  fs w !! configFile = None → loadConfig_at configFile w = inl empty_config.
Proof.
  intros Hmiss%os_IsNotExist_Stat. unfold loadConfig_at. by rewrite Hmiss.
Qed.

Lemma loadConfig_at_present configFile w :
  fs w !! configFile ≠ None →
  loadConfig_at configFile w
  = match LoadConfig configFile w with
    | inr err => inr (FatalLoadConfig err)
    | inl config => inl config
    end.
Proof.
  intros Hpresent. unfold loadConfig_at.
  destruct (os_IsNotExist (os_Stat configFile w)) eqn:Hstat; [|done].
  by apply os_IsNotExist_Stat in Hstat.
Qed.

Lemma os_ReadFile_present name w data :
  os_ReadFile name w = inl data → fs w !! name ≠ None.
Proof. unfold os_ReadFile. by destruct (fs w !! name). Qed.

(** C6.  With [configFile] the path of the configuration file:
    [loadConfig] returns the store without sites and without default when
    no file is at that path, and that is no failure; when something is at
    the path and [os.ReadFile] fails, [LoadConfig] returns the error
    "failed to read config file" and [loadConfig] stops on it; when the
    file is read and its contents do not unmarshal, [LoadConfig] returns
    the error "failed to parse YAML" and [loadConfig] stops on it. *)
Theorem loadConfig_spec (w : World) (configFile : string) :
  getConfigFilePath w = inl configFile →
  (fs w !! configFile = None → loadConfig w = inl (mkConfig [] ""))
  ∧ (∀ cause,
       fs w !! configFile ≠ None → os_ReadFile configFile w = inr cause →
       LoadConfig configFile w = inr (ErrReadConfig cause)
       ∧ loadConfig w = inr (FatalLoadConfig (ErrReadConfig cause)))
  ∧ (∀ data,
       os_ReadFile configFile w = inl data → yaml_Unmarshal data = inr () →
       LoadConfig configFile w = inr ErrParseYAML
       ∧ loadConfig w = inr (FatalLoadConfig ErrParseYAML)).
Proof.
  intros Hpath. unfold loadConfig. rewrite Hpath. split_and!.
  - apply loadConfig_at_missing.
  - intros cause Hpresent Hread.
    rewrite loadConfig_at_present by done.
    unfold LoadConfig. by rewrite Hread.
  - intros data Hread Hparse.
    rewrite loadConfig_at_present by (by eapply os_ReadFile_present).
    unfold LoadConfig. by rewrite Hread, Hparse.
Qed.

End PersistenceFacts.

Lemma loadConfig_spec_witness :
  loadConfig (libs := demo_libs) linux_world = inl (mkConfig [] "")
  ∧ loadConfig (libs := demo_libs) unreadable_world
    = inr (FatalLoadConfig (ErrReadConfig ErrPermission))
  ∧ loadConfig (libs := demo_libs) garbage_world
    = inr (FatalLoadConfig ErrParseYAML).
Proof.
  split_and!.
  - apply (loadConfig_spec (libs := demo_libs) linux_world config_path);
      reflexivity.
  - apply (loadConfig_spec (libs := demo_libs) unreadable_world config_path
             eq_refl).
    + by vm_compute.
    + reflexivity.
  - apply (loadConfig_spec (libs := demo_libs) garbage_world config_path
             eq_refl) with (data := "garbage"); reflexivity.
Defined.

Section RoundTrip.
Context `{libs : GoLibs}.

(** What [os.WriteFile] leaves behind: nothing changed when the open
    fails; otherwise the file holds all the bytes and there is no error,
    or it holds fewer of them and there is one. *)
Lemma os_WriteFile_cases name data w :
  (os_WriteFile name data w = (w, Some ErrPermission)
   ∧ os_OpenFile_trunc name w = None)
  ∨ ∃ r wr written,
      os_OpenFile_trunc name w = Some (r, wr)
      ∧ (os_WriteFile name data w).1
        = set_fs (<[name := File written r wr]> (fs w)) w
      ∧ ((written = data ∧ (os_WriteFile name data w).2 = None)
         ∨ ∃ n, n < String.length data
                ∧ written = String.substring 0 n data
                ∧ (os_WriteFile name data w).2 = Some ErrNoSpace).
Proof.
  unfold os_WriteFile.
  destruct (os_OpenFile_trunc name w) as [[r wr]|]; [right | by left].
  destruct (write_quota w name) as [n|].
  - case_decide.
    + exists r, wr, (String.substring 0 n data).
      split_and!; [done..|]. right. by exists n.
    + exists r, wr, data. split_and!; [done..|]. by left.
  - exists r, wr, data. split_and!; [done..|]. by left.
Qed.

Lemma os_OpenFile_trunc_readable name w r wr :
  os_OpenFile_trunc name w = Some (r, wr) →
  readable_if_present name w → r = true.
Proof.
  unfold os_OpenFile_trunc, readable_if_present.
  destruct (fs w !! name) as [[|old r' wr']|] eqn:Hname.
  - done.
  - destruct wr'; [|done]. intros [= <- <-] Hread.
    by destruct (Hread _ eq_refl) as (? & ? & [= _ -> _]).
  - destruct (can_create w name); [|done]. by intros [= <- <-].
Qed.

Lemma os_WriteFile_ok name data w w' :
  os_WriteFile name data w = (w', None) →
  home w' = home w
  ∧ ∃ r wr,
      fs w' = <[name := File data r wr]> (fs w)
      ∧ (readable_if_present name w → r = true).
Proof.
  intros Hwrite.
  destruct (os_WriteFile_cases name data w)
    as [[Hfail _]|(r & wr & written & Hopen & Hw & Hres)];
    [congruence|].
  rewrite Hwrite in Hw, Hres. simpl in *.
  destruct Hres as [[-> _]|(n & _ & _ & ?)]; [|done].
  subst w'. split; [done|]. exists r, wr. split; [done|].
  by apply (os_OpenFile_trunc_readable name w r wr).
Qed.

Lemma SaveConfig_ok c filename w w' :
  SaveConfig c filename w = (w', None) →
  ∃ data, yaml_Marshal c = inl data
          ∧ os_WriteFile filename data w = (w', None).
Proof.
  unfold SaveConfig. destruct (yaml_Marshal c) as [data|]; [|done].
  destruct (os_WriteFile filename data w) as [w1 [err|]] eqn:Hwrite; [done|].
  intros [= <-]. by exists data.
Qed.

(** What [LoadConfig] reads after a [SaveConfig] that reported no error is
    what [yaml.Marshal] produced: nothing is lost between the two. *)
Lemma LoadConfig_after_SaveConfig c filename w w' :
  SaveConfig c filename w = (w', None) →
  readable_if_present filename w →
  ∃ data, yaml_Marshal c = inl data
          ∧ os_ReadFile filename w' = inl data
          ∧ home w' = home w.
Proof.
  intros (data & Hmarshal & Hwrite)%SaveConfig_ok Hread.
  apply os_WriteFile_ok in Hwrite as (Hhome & r & wr & Hfs & Hr).
  exists data. split_and!; [done| |done].
  unfold os_ReadFile. rewrite Hfs, lookup_insert_eq. by rewrite Hr.
Qed.

(** C7.  Let the codec return the store [c] from the bytes it writes for
    [c].  When [SaveConfig c filename] reports no error, on a path that
    held nothing or a readable file, [LoadConfig filename] returns [c]:
    the same sites in the same order and the same default.  So does
    [loadConfig] when [filename] is the path of the configuration file. *)
Theorem SaveConfig_LoadConfig c filename w w' :
  (∀ data, yaml_Marshal c = inl data → yaml_Unmarshal data = inl c) →
  SaveConfig c filename w = (w', None) →
  readable_if_present filename w →
  LoadConfig filename w' = inl c
  ∧ loadConfig_at filename w' = inl c
  ∧ (getConfigFilePath w = inl filename → loadConfig w' = inl c).
Proof.
  intros Hcodec Hsave Hread.
  destruct (LoadConfig_after_SaveConfig _ _ _ _ Hsave Hread)
    as (data & Hmarshal & Hreadback & Hhome).
  assert (Hload : LoadConfig filename w' = inl c).
  { unfold LoadConfig. by rewrite Hreadback, (Hcodec data Hmarshal). }
  assert (Hat : loadConfig_at filename w' = inl c).
  { rewrite loadConfig_at_present by (by eapply os_ReadFile_present).
    by rewrite Hload. }
  split_and!; [done..|].
  unfold loadConfig, getConfigFilePath, os_UserHomeDir. rewrite Hhome.
  destruct (home w) as [homeDir|]; [|done]. by intros [= ->].
Qed.

End RoundTrip.

Lemma SaveConfig_LoadConfig_witness :
  LoadConfig (libs := demo_libs) config_path saved_world = inl config_AB
  ∧ loadConfig_at (libs := demo_libs) config_path saved_world = inl config_AB
  ∧ (getConfigFilePath (libs := demo_libs) linux_world = inl config_path →
     loadConfig (libs := demo_libs) saved_world = inl config_AB).
Proof.
  apply (SaveConfig_LoadConfig (libs := demo_libs) config_AB config_path
           linux_world saved_world).
  - intros data [= <-]. reflexivity.
  - reflexivity.
  - intros n Hn. vm_compute in Hn. discriminate Hn.
Defined.

(** ** Environment propagation *)

Lemma os_Setenv_frame key value w :
  let w' := (os_Setenv key value w).1 in
  GOOS w' = GOOS w ∧ home w' = home w ∧ fs w' = fs w.
Proof. unfold os_Setenv. by case_decide. Qed.

Lemma append_to_rcFile_frame lines w rcFile :
  let w' := append_to_rcFile lines w rcFile in
  GOOS w' = GOOS w ∧ home w' = home w.
Proof.
  unfold append_to_rcFile, os_Stat, os_OpenFile_append.
  by destruct (fs w !! rcFile) as [[|data r [|]]|].
Qed.

(** One turn of the loop, path by path: the file at [rcFile] grows by
    [lines] when it is there and opens for appending; nothing else
    changes. *)
Lemma append_to_rcFile_lookup lines w rcFile p :
  fs (append_to_rcFile lines w rcFile) !! p
  = match fs w !! p with
    | Some (File data r true) =>
        if decide (p = rcFile) then Some (File (data +:+ lines) r true)
        else fs w !! p
    | _ => fs w !! p
    end.
Proof.
  unfold append_to_rcFile, os_Stat, os_OpenFile_append.
  destruct (decide (p = rcFile)) as [->|Hne].
  - destruct (fs w !! rcFile) as [[|data r [|]]|] eqn:Hrc; simpl;
      rewrite ?lookup_insert_eq, ?Hrc; done.
  - destruct (fs w !! rcFile) as [[|data r [|]]|] eqn:Hrc; simpl;
      rewrite ?lookup_insert_ne by done;
      by destruct (fs w !! p) as [[|data' r' [|]]|].
Qed.

Lemma rc_files_distinct homeDir :
  homeDir +:+ "/.bashrc" ≠ homeDir +:+ "/.zshrc".
Proof.
  induction homeDir as [|a s IH]; simpl; [by intros [=] | by intros [= ?]].
Qed.

Lemma setUnixEnvVars_no_home baseURL authToken w :
  home w = None →
  (setUnixEnvVars baseURL authToken w).2 = Some (ErrHomeDir ErrNoHome)
  ∧ fs (setUnixEnvVars baseURL authToken w).1 = fs w.
Proof.
  intros Hhome. unfold setUnixEnvVars, os_UserHomeDir.
  set (w1 := (os_Setenv "ANTHROPIC_BASE_URL" baseURL w).1).
  set (w2 := (os_Setenv "ANTHROPIC_AUTH_TOKEN" authToken w1).1).
  destruct (os_Setenv_frame "ANTHROPIC_BASE_URL" baseURL w) as (_ & Hh1 & Hf1).
  destruct (os_Setenv_frame "ANTHROPIC_AUTH_TOKEN" authToken w1)
    as (_ & Hh2 & Hf2).
  fold w1 in Hh1, Hf1. fold w2 in Hh2, Hf2.
  rewrite Hh2, Hh1, Hhome. simpl. split; [done | congruence].
Qed.

Lemma setUnixEnvVars_home baseURL authToken w homeDir :
  home w = Some homeDir →
  (setUnixEnvVars baseURL authToken w).2 = None
  ∧ ∀ p,
      fs (setUnixEnvVars baseURL authToken w).1 !! p
      = match fs w !! p with
        | Some (File data r true) =>
            if decide (p ∈ rc_files homeDir) then
              Some (File (data +:+ exportLines baseURL authToken) r true)
            else fs w !! p
        | _ => fs w !! p
        end.
Proof.
  intros Hhome. unfold setUnixEnvVars, os_UserHomeDir.
  set (w1 := (os_Setenv "ANTHROPIC_BASE_URL" baseURL w).1).
  set (w2 := (os_Setenv "ANTHROPIC_AUTH_TOKEN" authToken w1).1).
  destruct (os_Setenv_frame "ANTHROPIC_BASE_URL" baseURL w) as (_ & Hh1 & Hf1).
  destruct (os_Setenv_frame "ANTHROPIC_AUTH_TOKEN" authToken w1)
    as (_ & Hh2 & Hf2).
  fold w1 in Hh1, Hf1. fold w2 in Hh2, Hf2.
  rewrite Hh2, Hh1, Hhome. simpl. split; [done|]. intros p.
  rewrite !append_to_rcFile_lookup, Hf2, Hf1.
  pose proof (rc_files_distinct homeDir) as Hdistinct.
  unfold rc_files.
  destruct (fs w !! p) as [[|data r [|]]|] eqn:Hp; try done.
  destruct (decide (p = homeDir +:+ "/.bashrc")) as [Hb|Hb];
    destruct (decide (p = homeDir +:+ "/.zshrc")) as [Hz|Hz].
  - congruence.
  - by rewrite decide_True by (rewrite Hb; by left).
  - by rewrite decide_True by (rewrite Hz; right; by left).
  - rewrite decide_False; [done|].
    rewrite !elem_of_cons, elem_of_nil. tauto.
Qed.



(** C8 fails as it is written: on Plan 9, which is neither Windows nor a
    Unix, [SetEnvironmentVariables] for a site of the store reports no
    error. *)
Lemma SetEnvironmentVariables_unsupported_counterexample :
  unsupported_OS plan9_world
  ∧ GetAPISiteByName config_AB "A" = Some site_A
  ∧ (SetEnvironmentVariables config_AB "A" plan9_world).2 = None.
Proof. split_and!; [split_and!; discriminate | reflexivity..]. Qed.

(** C8, as the program has it.  For a site of the store and an operating
    system that is neither "windows" nor "linux" nor "darwin",
    [SetEnvironmentVariables] does what [setUnixEnvVars] does and returns:
    with no error when the home directory is found, with the error "failed
    to get home directory" when it is not. *)
Theorem SetEnvironmentVariables_unsupported c siteName site w :
  GetAPISiteByName c siteName = Some site →
  unsupported_OS w →
  SetEnvironmentVariables c siteName w
  = setUnixEnvVars (BaseURL site) (Token site) w
  ∧ (is_Some (home w) → (SetEnvironmentVariables c siteName w).2 = None)
  ∧ (home w = None →
       (SetEnvironmentVariables c siteName w).2
       = Some (ErrHomeDir ErrNoHome)).
Proof.
  intros Hsite (Hwindows & _ & _).
  assert (Hunix : SetEnvironmentVariables c siteName w
                  = setUnixEnvVars (BaseURL site) (Token site) w).
  { unfold SetEnvironmentVariables. rewrite Hsite. by rewrite decide_False. }
  rewrite Hunix. split_and!; [done| |].
  - intros [homeDir Hhome]. by eapply setUnixEnvVars_home.
  - intros Hhome. by apply setUnixEnvVars_no_home.
Qed.

Lemma SetEnvironmentVariables_unsupported_witness :
  GetAPISiteByName config_AB "A" = Some site_A
  ∧ unsupported_OS plan9_world
  ∧ SetEnvironmentVariables config_AB "A" plan9_world
    = setUnixEnvVars (BaseURL site_A) (Token site_A) plan9_world
  ∧ (SetEnvironmentVariables config_AB "A" plan9_world).2 = None.
Proof.
  assert (Hos : unsupported_OS plan9_world)
    by (split_and!; discriminate).
  destruct (SetEnvironmentVariables_unsupported config_AB "A" site_A
              plan9_world eq_refl Hos) as (Hunix & Hok & _).
  split_and!; [reflexivity | exact Hos | exact Hunix |].
  apply Hok. by eexists.
Defined.

(** ** The scenarios of the specification, run on the embedding *)

Example scenario_add_add_remove_remove :
  let c1 := addAPISite_config empty_config "A" "url1" "tok1" in
  let c2 := addAPISite_config c1 "B" "url2" "tok2" in
  let c3 := (RemoveAPISite c2 "A").1 in
  let c4 := (RemoveAPISite c3 "B").1 in
  DefaultAPISite c1 = "A"
  ∧ c2 = mkConfig [mkAPISite "A" "url1" "tok1"; mkAPISite "B" "url2" "tok2"] "A"
  ∧ c3 = mkConfig [mkAPISite "B" "url2" "tok2"] "B"
  ∧ c4 = mkConfig [] "".
Proof. vm_compute. done. Qed.

Example scenario_add_twice :
  APISites (addAPISite_config (addAPISite_config empty_config "A" "u1" "t1")
              "A" "u2" "t2")
  = [mkAPISite "A" "u2" "t2"].
Proof. vm_compute. done. Qed.

(** The three commands run in a row on [linux_world], with the stand-in
    codec: the file holds the two sites with [B] as default, the block is
    appended to [.bashrc], which opens, and not to [.zshrc], which does
    not. *)
Example commands_on_linux_world :
  let w1 := (addAPISite (libs := demo_libs) "A" "url1" "tok1" linux_world).1 in
  let w2 := (addAPISite (libs := demo_libs) "B" "url2" "tok2" w1).1 in
  let w3 := (setDefaultAPISite (libs := demo_libs) "B" w2).1 in
  loadConfig (libs := demo_libs) w3 = inl (mkConfig [site_A; site_B] "B")
  ∧ fs w3 !! "/home/u/.bashrc"
    = Some (File ("# rc" +:+ exportLines "url2" "tok2") true true)
  ∧ fs w3 !! "/home/u/.zshrc" = Some (File "# z" true false)
  ∧ environ w3 !! "ANTHROPIC_BASE_URL" = Some "url2".
Proof. vm_compute. done. Qed.

(** * Further properties of the store *)

(** ** Lookups *)

Lemma GetAPISiteByName_range_find c name :
  GetAPISiteByName c name = snd <$> range_find name (APISites c).
Proof.
  unfold GetAPISiteByName.
  by destruct (range_find name (APISites c)) as [[i site]|].
Qed.

Lemma range_find_cons name site sites :
  range_find name (site :: sites)
  = if decide (Name site = name) then Some (0, site)
    else prod_map S id <$> range_find name sites.
Proof. done. Qed.

(** The site a lookup returns does not depend on sites of other names: a
    site of another name may be put in place of one, added or dropped. *)
Lemma lookup_insert_other name (sites : list APISite) i new :
  Name new ≠ name →
  (∀ old, sites !! i = Some old → Name old ≠ name) →
  snd <$> range_find name (<[i := new]> sites) = snd <$> range_find name sites.
Proof.
  intros Hnew. revert i.
  induction sites as [|site sites IH]; intros i Hold; [done|].
  destruct i as [|i].
  - change (<[0:=new]> (site :: sites)) with (new :: sites).
    rewrite !range_find_cons. rewrite decide_False by done.
    by rewrite decide_False by (by apply Hold).
  - change (<[S i:=new]> (site :: sites)) with (site :: <[i:=new]> sites).
    rewrite !range_find_cons.
    destruct (decide (Name site = name)); [done|].
    specialize (IH i Hold).
    destruct (range_find name (<[i:=new]> sites)) as [[??]|],
      (range_find name sites) as [[??]|]; simpl in *; congruence.
Qed.

Lemma lookup_middle_other name (l1 l2 : list APISite) site :
  Name site ≠ name →
  snd <$> range_find name (l1 ++ site :: l2)
  = snd <$> range_find name (l1 ++ l2).
Proof.
  intros Hsite. induction l1 as [|first l1 IH];
    rewrite <- ?app_comm_cons, ?app_nil_l, !range_find_cons.
  - rewrite decide_False by done.
    by destruct (range_find name l2) as [[??]|].
  - destruct (decide (Name first = name)); [done|].
    destruct (range_find name (l1 ++ site :: l2)) as [[??]|],
      (range_find name (l1 ++ l2)) as [[??]|]; simpl in *; congruence.
Qed.

(** [GetAPISiteByName] returns [nil] exactly when no site has the name;
    the site it returns has the name and is the first of the list that
    has it. *)
Theorem GetAPISiteByName_spec c name :
  (GetAPISiteByName c name = None ↔ ¬ has_site c name)
  ∧ (∀ site, GetAPISiteByName c name = Some site →
       Name site = name
       ∧ ∃ i, APISites c !! i = Some site
              ∧ ∀ j other, APISites c !! j = Some other → j < i →
                           Name other ≠ name).
Proof.
  rewrite not_has_site_range_find. unfold GetAPISiteByName.
  destruct (range_find name (APISites c)) as [[i found]|] eqn:Hfind.
  - split; [done|]. intros site [= <-].
    apply range_find_Some in Hfind as (Hi & Hname & Hbefore). eauto.
  - split; [done | by intros site].
Qed.

(** [GetDefaultAPISite] returns [nil] exactly when the store has no site.
    When a site has the default's name it returns what [GetAPISiteByName]
    returns for that name; otherwise, also when the default is the empty
    string or names no site, it returns the first site. *)
Theorem GetDefaultAPISite_spec c :
  (GetDefaultAPISite c = None ↔ APISites c = [])
  ∧ (has_site c (DefaultAPISite c) →
       GetDefaultAPISite c = GetAPISiteByName c (DefaultAPISite c))
  ∧ (¬ has_site c (DefaultAPISite c) →
       GetDefaultAPISite c = head (APISites c)).
Proof.
  rewrite has_site_range_find. unfold GetDefaultAPISite, GetAPISiteByName.
  destruct (range_find (DefaultAPISite c) (APISites c)) as [[i site]|]
    eqn:Hfind.
  - split_and!; [|done|by intros []].
    split; [done|]. intros Hnil. by rewrite Hnil in Hfind.
  - split_and!; [|by intros [??]|intros _].
    + destruct (APISites c); simpl; [done|]. split; done.
    + by destruct (APISites c).
Qed.

(** ** How the operations compose *)

(** [AddOrUpdateAPISite] for one name changes no lookup of another name. *)
Theorem AddOrUpdateAPISite_other c name baseURL token other :
  other ≠ name →
  GetAPISiteByName (AddOrUpdateAPISite c name baseURL token) other
  = GetAPISiteByName c other.
Proof.
  intros Hother. rewrite !GetAPISiteByName_range_find.
  destruct (range_find name (APISites c)) as [[i old]|] eqn:Hfind.
  - rewrite (AddOrUpdateAPISite_update _ _ _ _ i old) by done. simpl.
    apply range_find_Some in Hfind as (Hi & Hname & _).
    apply lookup_insert_other; [done|].
    intros old' Hold'. congruence.
  - rewrite AddOrUpdateAPISite_append by done. simpl.
    rewrite <- (app_nil_r (APISites c)) at 2.
    by apply lookup_middle_other.
Qed.

Lemma AddOrUpdateAPISite_other_witness :
  GetAPISiteByName (AddOrUpdateAPISite config_AB "A" "url3" "tok3") "B"
  = GetAPISiteByName config_AB "B".
Proof.
  apply (AddOrUpdateAPISite_other config_AB "A" "url3" "tok3" "B").
  discriminate.
Defined.

(** Of two [AddOrUpdateAPISite] for the same name the second wins: the
    store is the one the second call alone gives.  In particular the call
    is idempotent. *)
Theorem AddOrUpdateAPISite_twice c name baseURL1 token1 baseURL2 token2 :
  AddOrUpdateAPISite (AddOrUpdateAPISite c name baseURL1 token1)
    name baseURL2 token2
  = AddOrUpdateAPISite c name baseURL2 token2.
Proof.
  destruct (range_find name (APISites c)) as [[i old]|] eqn:Hfind.
  - rewrite (AddOrUpdateAPISite_update c _ _ _ i old) by done.
    rewrite (AddOrUpdateAPISite_update c _ _ _ i old) by done.
    rewrite (AddOrUpdateAPISite_update _ _ _ _ i
               (mkAPISite name baseURL1 token1))
      by (by apply (range_find_insert _ _ _ old)).
    unfold set_APISites. simpl. by rewrite list_insert_insert_eq.
  - rewrite !(AddOrUpdateAPISite_append c) by done.
    rewrite (AddOrUpdateAPISite_update _ _ _ _ (length (APISites c))
               (mkAPISite name baseURL1 token1))
      by (by apply range_find_snoc).
    unfold set_APISites. simpl. f_equal.
    rewrite insert_app_r_alt by done. by rewrite Nat.sub_diag.
Qed.

Lemma RemoveAPISite_sites c name i site :
  range_find name (APISites c) = Some (i, site) →
  ∃ l1 l2,
    APISites c = l1 ++ site :: l2
    ∧ APISites (RemoveAPISite c name).1 = l1 ++ l2
    ∧ Name site = name
    ∧ ∀ other, other ∈ l1 → Name other ≠ name.
Proof.
  intros Hfind.
  pose proof (range_find_split _ _ _ _ Hfind) as (Hsplit & _ & Hname & Hl1).
  exists (take i (APISites c)), (drop (S i) (APISites c)).
  by rewrite (RemoveAPISite_found _ _ _ _ Hfind).
Qed.

(** A successful [RemoveAPISite] takes exactly one site away and changes
    no lookup of another name; when the names of the store are pairwise
    distinct, the removed name is no longer found. *)
Theorem RemoveAPISite_lookup c name :
  (RemoveAPISite c name).2 = true →
  length (APISites c) = S (length (APISites (RemoveAPISite c name).1))
  ∧ (∀ other, other ≠ name →
       GetAPISiteByName (RemoveAPISite c name).1 other
       = GetAPISiteByName c other)
  ∧ (NoDup (names c) → GetAPISiteByName (RemoveAPISite c name).1 name = None).
Proof.
  intros Hok.
  destruct (range_find name (APISites c)) as [[i site]|] eqn:Hfind;
    [|by rewrite RemoveAPISite_absent in Hok].
  destruct (RemoveAPISite_sites _ _ _ _ Hfind)
    as (l1 & l2 & Hsplit & Hrest & Hname & Hl1).
  rewrite !GetAPISiteByName_range_find, Hrest, Hsplit. split_and!.
  - rewrite !length_app. simpl. lia.
  - intros other Hother. rewrite !GetAPISiteByName_range_find, Hrest, Hsplit.
    symmetry. apply lookup_middle_other. congruence.
  - unfold names. rewrite Hsplit, fmap_app, fmap_cons, Hname.
    intros (_ & _ & [Hnotin _]%NoDup_cons)%NoDup_app.
    assert (Hnone : range_find name (l1 ++ l2) = None); [|by rewrite Hnone].
    apply range_find_None. intros other [Hin|Hin]%elem_of_app; [auto|].
    intros Hother. apply Hnotin. rewrite <- Hother.
    by apply list_elem_of_fmap_2.
Qed.

Lemma RemoveAPISite_lookup_witness :
  (RemoveAPISite config_AB "A").2 = true
  ∧ length (APISites config_AB)
    = S (length (APISites (RemoveAPISite config_AB "A").1))
  ∧ GetAPISiteByName (RemoveAPISite config_AB "A").1 "B"
    = GetAPISiteByName config_AB "B"
  ∧ GetAPISiteByName (RemoveAPISite config_AB "A").1 "A" = None.
Proof.
  destruct (RemoveAPISite_lookup config_AB "A" eq_refl)
    as (Hlen & Hother & Hgone).
  split_and!; [reflexivity | exact Hlen | |].
  - apply Hother. discriminate.
  - apply Hgone. change (names config_AB) with ["A"; "B"].
    apply NoDup_cons. split; [|apply NoDup_singleton].
    intros Hin%list_elem_of_singleton. discriminate Hin.
Defined.

Lemma GetDefaultAPISite_found c :
  has_site c (DefaultAPISite c) →
  GetDefaultAPISite c = GetAPISiteByName c (DefaultAPISite c).
Proof.
  intros [[i site] Hfind]%has_site_range_find.
  unfold GetDefaultAPISite, GetAPISiteByName. by rewrite Hfind.
Qed.

(** After a successful [SetDefaultAPISite], [GetDefaultAPISite] returns the
    site of that name. *)
Theorem SetDefaultAPISite_GetDefaultAPISite c name :
  (SetDefaultAPISite c name).2 = true →
  GetDefaultAPISite (SetDefaultAPISite c name).1 = GetAPISiteByName c name
  ∧ is_Some (GetAPISiteByName c name).
Proof.
  unfold SetDefaultAPISite.
  destruct (range_find name (APISites c)) as [[i site]|] eqn:Hfind;
    [intros _ | done].
  simpl. split.
  - rewrite GetDefaultAPISite_found.
    + unfold GetAPISiteByName. simpl. by rewrite Hfind.
    + apply has_site_range_find. simpl. by rewrite Hfind.
  - unfold GetAPISiteByName. rewrite Hfind. by eexists.
Qed.

Lemma SetDefaultAPISite_GetDefaultAPISite_witness :
  (SetDefaultAPISite config_AB "B").2 = true
  ∧ GetDefaultAPISite (SetDefaultAPISite config_AB "B").1
    = GetAPISiteByName config_AB "B".
Proof.
  split; [reflexivity|].
  exact (proj1 (SetDefaultAPISite_GetDefaultAPISite config_AB "B" eq_refl)).
Defined.

(** [remove] undoes [add] of a name the store does not have: on a store
    with pairwise distinct names whose default names a site, or is empty
    when there is no site, adding a new name and removing it gives the
    store back, default included. *)
Theorem RemoveAPISite_addAPISite c name url token :
  store_inv c →
  (APISites c ≠ [] → DefaultAPISite c ≠ "") →
  ¬ has_site c name →
  RemoveAPISite (addAPISite_config c name url token) name = (c, true).
Proof.
  intros [_ Hdef] Hnonempty Habsent.
  pose proof Habsent as Hnone%not_has_site_range_find.
  set (new := mkAPISite name url token).
  set (c' := addAPISite_config c name url token).
  assert (Hsites : APISites c' = APISites c ++ [new]).
  { subst c'. rewrite addAPISite_config_sites.
    by rewrite AddOrUpdateAPISite_append. }
  assert (Hfind : range_find name (APISites c')
                  = Some (length (APISites c), new)).
  { rewrite Hsites. by apply range_find_snoc. }
  rewrite (RemoveAPISite_found _ _ _ _ Hfind). simpl. rewrite Hsites.
  rewrite take_app_length, drop_ge, app_nil_r
    by (rewrite length_app; simpl; lia).
  unfold default_after_remove. subst c'.
  rewrite addAPISite_config_default.
  destruct c as [sites default]. simpl in *. do 2 f_equal.
  destruct (decide (default = "")) as [->|Hne].
  - rewrite decide_True by done.
    destruct sites as [|first rest]; [done|]. by destruct Hnonempty.
  - rewrite decide_False; [done|]. intros ->. by apply Habsent, Hdef.
Qed.

Lemma RemoveAPISite_addAPISite_witness :
  store_inv config_AB
  ∧ RemoveAPISite (addAPISite_config config_AB "C" "url3" "tok3") "C"
    = (config_AB, true).
Proof.
  assert (Hinv : store_inv config_AB).
  { split.
    - change (names config_AB) with ["A"; "B"].
      apply NoDup_cons. split; [|apply NoDup_singleton].
      intros Hin%list_elem_of_singleton. discriminate Hin.
    - intros _. exists site_A. split; [left | reflexivity]. }
  split; [exact Hinv|].
  apply (RemoveAPISite_addAPISite config_AB "C" "url3" "tok3" Hinv).
  - intros _. discriminate.
  - apply not_has_site_range_find. reflexivity.
Defined.

Lemma AddOrUpdateAPISite_inv c name baseURL token :
  store_inv c → store_inv (AddOrUpdateAPISite c name baseURL token).
Proof.
  intros [Hnodup Hdef]. unfold store_inv.
  rewrite !has_site_names, AddOrUpdateAPISite_names,
    AddOrUpdateAPISite_default.
  rewrite has_site_names in Hdef.
  destruct (decide (name ∈ names c)) as [Hin|Hin]; [done|]. split.
  - apply NoDup_app. split_and!; [done| |apply NoDup_singleton].
    intros x Hx ->%list_elem_of_singleton. done.
  - intros Hne. apply elem_of_app. left. auto.
Qed.

(** The invariant of the store is kept by every operation from every
    store that has it, such as a store read from a well-formed file:
    with pairwise distinct names and a default that is empty or names a
    site before, the same holds after [AddOrUpdateAPISite], after the
    command [add], after [SetDefaultAPISite] and after [RemoveAPISite],
    whether they succeed or not. *)
Theorem store_inv_preserved c :
  store_inv c →
  (∀ name baseURL token,
     store_inv (AddOrUpdateAPISite c name baseURL token)
     ∧ store_inv (addAPISite_config c name baseURL token))
  ∧ (∀ name, store_inv (SetDefaultAPISite c name).1)
  ∧ (∀ name, store_inv (RemoveAPISite c name).1).
Proof.
  intros Hinv. split_and!.
  - intros name baseURL token.
    split; [by apply AddOrUpdateAPISite_inv | by apply addAPISite_config_inv].
  - intros name. by apply SetDefaultAPISite_inv.
  - intros name. by apply RemoveAPISite_inv.
Qed.

Lemma store_inv_preserved_witness :
  store_inv config_no_default
  ∧ store_inv (addAPISite_config config_no_default "A" "url3" "tok3")
  ∧ store_inv (RemoveAPISite config_no_default "A").1.
Proof.
  assert (Hinv : store_inv config_no_default).
  { split; [|done].
    change (names config_no_default) with ["A"]. apply NoDup_singleton. }
  destruct (store_inv_preserved config_no_default Hinv)
    as (Hadd & _ & Hremove).
  split_and!; [exact Hinv | exact (proj2 (Hadd "A" "url3" "tok3"))
              | exact (Hremove "A")].
Defined.

(** On the stores the commands build from non-empty names the default is
    the empty string exactly when there is no site, and
    [GetDefaultAPISite] is the lookup of the default by name: its fallback
    to the first site is never taken. *)
Theorem reachable_named_default c :
  reachable_named c →
  (DefaultAPISite c = "" ↔ APISites c = [])
  ∧ GetDefaultAPISite c = GetAPISiteByName c (DefaultAPISite c).
Proof.
  intros Hreach.
  destruct (reachable_named_inv c Hreach) as [_ Hdef].
  destruct (store_inv_reachable c (reachable_named_reachable c Hreach))
    as [_ Hsite].
  assert (Hiff : DefaultAPISite c = "" ↔ APISites c = []).
  { split.
    - intros Hempty. destruct (APISites c) as [|site sites] eqn:Hsites;
        [done|]. by destruct Hdef.
    - intros Hnil. destruct (decide (DefaultAPISite c = "")) as [|Hne];
        [done|].
      destruct (Hsite Hne) as (site & Hin & _).
      rewrite Hnil in Hin. by apply elem_of_nil in Hin. }
  split; [done|].
  destruct (decide (DefaultAPISite c = "")) as [Hempty|Hne].
  - apply Hiff in Hempty.
    unfold GetDefaultAPISite, GetAPISiteByName. by rewrite Hempty.
  - by apply GetDefaultAPISite_found, Hsite.
Qed.

Lemma reachable_named_default_witness :
  reachable_named config_AB
  ∧ (DefaultAPISite config_AB = "" ↔ APISites config_AB = [])
  ∧ GetDefaultAPISite config_AB
    = GetAPISiteByName config_AB (DefaultAPISite config_AB).
Proof.
  assert (Hreach : reachable_named config_AB).
  { apply (reachable_named_add
             (addAPISite_config empty_config "A" "url1" "tok1")
             "B" "url2" "tok2"); [discriminate|].
    apply reachable_named_add; [discriminate | apply reachable_named_empty]. }
  split; [exact Hreach | exact (reachable_named_default config_AB Hreach)].
Defined.

(** * Further properties of the environment propagation *)

Lemma os_Setenv_environ key value w :
  has_NUL value = false →
  environ (os_Setenv key value w).1 = <[key := value]> (environ w)
  ∧ setx_works (os_Setenv key value w).1 = setx_works w
  ∧ user_environ (os_Setenv key value w).1 = user_environ w.
Proof.
  intros Hnul. unfold os_Setenv. rewrite Hnul.
  by rewrite decide_False by (by intros [_ ?]).
Qed.

Lemma exec_setx_frame key value w :
  let w' := (exec_setx key value w).1 in
  GOOS w' = GOOS w ∧ home w' = home w ∧ fs w' = fs w
  ∧ environ w' = environ w ∧ setx_works w' = setx_works w
  ∧ user_environ w'
    = if setx_works w then <[key := value]> (user_environ w)
      else user_environ w.
Proof.
  unfold exec_setx.
  destruct (setx_works w) eqn:Hsetx; simpl; by rewrite ?Hsetx.
Qed.

Lemma append_to_rcFile_environ lines w rcFile :
  let w' := append_to_rcFile lines w rcFile in
  environ w' = environ w ∧ user_environ w' = user_environ w.
Proof.
  unfold append_to_rcFile, os_Stat, os_OpenFile_append.
  by destruct (fs w !! rcFile) as [[|data r [|]]|].
Qed.

Lemma setWindowsEnvVars_no_error baseURL authToken w :
  (setWindowsEnvVars baseURL authToken w).2 = None.
Proof. done. Qed.

Lemma setUnixEnvVars_frame baseURL authToken w :
  let w' := (setUnixEnvVars baseURL authToken w).1 in
  GOOS w' = GOOS w ∧ home w' = home w
  ∧ environ w'
    = environ (os_Setenv "ANTHROPIC_AUTH_TOKEN" authToken
                 (os_Setenv "ANTHROPIC_BASE_URL" baseURL w).1).1.
Proof.
  unfold setUnixEnvVars, os_UserHomeDir.
  set (w1 := (os_Setenv "ANTHROPIC_BASE_URL" baseURL w).1).
  set (w2 := (os_Setenv "ANTHROPIC_AUTH_TOKEN" authToken w1).1).
  destruct (os_Setenv_frame "ANTHROPIC_BASE_URL" baseURL w) as (Hg1 & Hh1 & _).
  destruct (os_Setenv_frame "ANTHROPIC_AUTH_TOKEN" authToken w1)
    as (Hg2 & Hh2 & _).
  fold w1 in Hg1, Hh1. fold w2 in Hg2, Hh2.
  destruct (home w2) as [homeDir|] eqn:Hhome2; simpl;
    [|split_and!; congruence].
  set (lines := exportLines baseURL authToken).
  set (w3 := append_to_rcFile lines w2 (homeDir +:+ "/.bashrc")).
  destruct (append_to_rcFile_frame lines w2 (homeDir +:+ "/.bashrc"))
    as [Hg3 Hh3].
  destruct (append_to_rcFile_frame lines w3 (homeDir +:+ "/.zshrc"))
    as [Hg4 Hh4].
  destruct (append_to_rcFile_environ lines w2 (homeDir +:+ "/.bashrc"))
    as [He3 _].
  destruct (append_to_rcFile_environ lines w3 (homeDir +:+ "/.zshrc"))
    as [He4 _].
  fold w3 in Hg3, Hh3, He3.
  split_and!; congruence.
Qed.

(** [SetEnvironmentVariables] reports no error exactly when the store has
    the site and the system is "windows" or the home directory is found.
    For a name the store does not have it returns the error "API site not
    found" and changes nothing: no variable is set and no file is
    touched. *)
Theorem SetEnvironmentVariables_error c siteName w :
  ((SetEnvironmentVariables c siteName w).2 = None ↔
   has_site c siteName ∧ (GOOS w = "windows" ∨ is_Some (home w)))
  ∧ (¬ has_site c siteName →
       SetEnvironmentVariables c siteName w
       = (w, Some (ErrSiteNotFound siteName))).
Proof.
  rewrite has_site_range_find.
  unfold SetEnvironmentVariables, GetAPISiteByName.
  destruct (range_find siteName (APISites c)) as [[i site]|] eqn:Hfind.
  - split; [|by intros []]. simpl.
    destruct (decide (GOOS w = "windows")) as [Hwin|Hwin].
    + split; [eauto | done].
    + destruct (home w) as [homeDir|] eqn:Hhome.
      * destruct (setUnixEnvVars_home (BaseURL site) (Token site) w homeDir
                    Hhome) as [-> _].
        split; eauto.
      * destruct (setUnixEnvVars_no_home (BaseURL site) (Token site) w Hhome)
          as [-> _].
        split; [done|]. intros [_ [?|[??]]]; done.
  - split; [|done]. simpl. split; [done | by intros [[??] _]].
Qed.

(** For a site of the store whose URL and token hold no NUL byte,
    [SetEnvironmentVariables] sets the two variables of the process to the
    URL and the token and no other variable, on every system and also when
    it returns the error of the home directory. *)
Theorem SetEnvironmentVariables_environ c siteName site w :
  GetAPISiteByName c siteName = Some site →
  has_NUL (BaseURL site) = false →
  has_NUL (Token site) = false →
  environ (SetEnvironmentVariables c siteName w).1
  = <["ANTHROPIC_AUTH_TOKEN" := Token site]>
      (<["ANTHROPIC_BASE_URL" := BaseURL site]> (environ w)).
Proof.
  intros Hsite Hurl Htoken. unfold SetEnvironmentVariables. rewrite Hsite.
  set (w1 := (os_Setenv "ANTHROPIC_BASE_URL" (BaseURL site) w).1).
  assert (He2 : environ (os_Setenv "ANTHROPIC_AUTH_TOKEN" (Token site) w1).1
                = <["ANTHROPIC_AUTH_TOKEN" := Token site]>
                    (<["ANTHROPIC_BASE_URL" := BaseURL site]> (environ w))).
  { destruct (os_Setenv_environ "ANTHROPIC_AUTH_TOKEN" (Token site) w1 Htoken)
      as [-> _].
    subst w1.
    by destruct (os_Setenv_environ "ANTHROPIC_BASE_URL" (BaseURL site) w Hurl)
      as [-> _]. }
  simpl. destruct (decide (GOOS w = "windows")).
  - unfold setWindowsEnvVars. simpl. fold w1.
    set (w2 := (os_Setenv "ANTHROPIC_AUTH_TOKEN" (Token site) w1).1) in *.
    set (w3 := (exec_setx "ANTHROPIC_BASE_URL" (BaseURL site) w2).1).
    destruct (exec_setx_frame "ANTHROPIC_BASE_URL" (BaseURL site) w2)
      as (_ & _ & _ & He3 & _).
    destruct (exec_setx_frame "ANTHROPIC_AUTH_TOKEN" (Token site) w3)
      as (_ & _ & _ & He4 & _).
    fold w3 in He3. congruence.
  - destruct (setUnixEnvVars_frame (BaseURL site) (Token site) w)
      as (_ & _ & ->).
    exact He2.
Qed.

Lemma SetEnvironmentVariables_environ_witness :
  environ (SetEnvironmentVariables config_AB "B" homeless_world).1
  = <["ANTHROPIC_AUTH_TOKEN" := "tok2"]>
      (<["ANTHROPIC_BASE_URL" := "url2"]> (environ homeless_world)).
Proof.
  apply (SetEnvironmentVariables_environ config_AB "B" site_B homeless_world);
    reflexivity.
Defined.

(** On "windows", [SetEnvironmentVariables] for a site of the store
    reports no error whether or not [setx] works, leaves every file as it
    was, and stores the two variables for the user when [setx] works and
    nothing when it does not. *)
Theorem SetEnvironmentVariables_windows c siteName site w :
  GetAPISiteByName c siteName = Some site →
  GOOS w = "windows" →
  let w' := (SetEnvironmentVariables c siteName w).1 in
  (SetEnvironmentVariables c siteName w).2 = None
  ∧ fs w' = fs w
  ∧ user_environ w'
    = if setx_works w then
        <["ANTHROPIC_AUTH_TOKEN" := Token site]>
          (<["ANTHROPIC_BASE_URL" := BaseURL site]> (user_environ w))
      else user_environ w.
Proof.
  intros Hsite Hwin. unfold SetEnvironmentVariables. rewrite Hsite. simpl.
  rewrite decide_True by done. unfold setWindowsEnvVars. simpl.
  split; [done|].
  unfold os_Setenv, exec_setx.
  repeat case_decide; simpl; destruct (setx_works w) eqn:Hsetx; simpl;
    rewrite ?Hsetx; done.
Qed.

Lemma SetEnvironmentVariables_windows_witness :
  (SetEnvironmentVariables config_AB "B" windows_world).2 = None
  ∧ fs (SetEnvironmentVariables config_AB "B" windows_world).1
    = fs windows_world
  ∧ user_environ (SetEnvironmentVariables config_AB "B" windows_world).1
    = <["ANTHROPIC_AUTH_TOKEN" := "tok2"]>
        (<["ANTHROPIC_BASE_URL" := "url2"]> (user_environ windows_world)).
Proof.
  exact (SetEnvironmentVariables_windows config_AB "B" site_B windows_world
           eq_refl eq_refl).
Defined.



(** * Further properties of the persistence *)

Section SaveFacts.
Context `{libs : GoLibs}.

Lemma os_WriteFile_frame name data w :
  let w' := (os_WriteFile name data w).1 in
  GOOS w' = GOOS w ∧ home w' = home w ∧ environ w' = environ w
  ∧ user_environ w' = user_environ w
  ∧ (∀ p, p ≠ name → fs w' !! p = fs w !! p).
Proof.
  cbv zeta.
  destruct (os_WriteFile_cases name data w)
    as [[-> _]|(r & wr & written & _ & -> & _)]; [done|].
  split_and!; [done..|]. intros p Hp. simpl. by rewrite lookup_insert_ne.
Qed.

(** The three ways [os.WriteFile] ends, seen from the file. *)
Lemma os_WriteFile_outcome name data w :
  let w' := (os_WriteFile name data w).1 in
  let err := (os_WriteFile name data w).2 in
  (err = None ∧ ∃ r wr, fs w' !! name = Some (File data r wr))
  ∨ (err = Some ErrPermission ∧ w' = w)
  ∨ (err = Some ErrNoSpace
     ∧ ∃ n r wr, n < String.length data
                 ∧ fs w' !! name
                   = Some (File (String.substring 0 n data) r wr)).
Proof.
  cbv zeta.
  destruct (os_WriteFile_cases name data w)
    as [[-> _]|(r & wr & written & _ & -> & Hres)]; [by right; left|].
  destruct Hres as [[-> ->]|(n & Hn & -> & ->)]; simpl.
  - left. split; [done|]. exists r, wr. by rewrite lookup_insert_eq.
  - right. right. split; [done|]. exists n, r, wr.
    by rewrite lookup_insert_eq.
Qed.

(** What [SaveConfig] keeps, whether it fails or not, and the one
    failure after which the world is not what it was. *)
Lemma SaveConfig_world config configFile w :
  let w' := (SaveConfig config configFile w).1 in
  home w' = home w ∧ GOOS w' = GOOS w
  ∧ environ w' = environ w ∧ user_environ w' = user_environ w
  ∧ (∀ p, p ≠ configFile → fs w' !! p = fs w !! p)
  ∧ (∀ err, (SaveConfig config configFile w).2 = Some err →
            err = ErrWriteConfig ErrNoSpace ∨ w' = w).
Proof.
  cbv zeta. unfold SaveConfig.
  destruct (yaml_Marshal config) as [data|];
    [|split_and!; try done; intros err _; by right].
  destruct (os_WriteFile_frame configFile data w) as (Hg & Hh & He & Hu & Hfs).
  pose proof (os_WriteFile_outcome configFile data w) as Hout.
  destruct (os_WriteFile configFile data w) as [w1 [err|]]; simpl in *;
    (split_and!; [done..|]); [|done].
  intros err' [= <-].
  destruct Hout as [[? _]|[[[= ->] ->]|[[= ->] _]]]; [done|by right|by left].
Qed.

(** [SaveConfig] changes the file at [filename] and nothing else: every
    other path, the environment and the home directory are as before.
    It ends in one of four ways.  With no error, and the file holds the
    bytes [yaml.Marshal] gave for the store.  With the error of the
    marshalling, or with the error of a file that does not open, and
    nothing at all has changed.  Or with the error of a write that was cut
    short, and then the file is not what it was: it holds only the bytes
    that got through, fewer than were to be written. *)
Theorem SaveConfig_frame c filename w :
  let w' := (SaveConfig c filename w).1 in
  let err := (SaveConfig c filename w).2 in
  ((∀ p, p ≠ filename → fs w' !! p = fs w !! p)
   ∧ environ w' = environ w ∧ user_environ w' = user_environ w
   ∧ home w' = home w ∧ GOOS w' = GOOS w)
  ∧ ((err = None
      ∧ ∃ data r wr, yaml_Marshal c = inl data
                     ∧ fs w' !! filename = Some (File data r wr))
     ∨ (err = Some ErrMarshalYAML ∧ w' = w)
     ∨ (err = Some (ErrWriteConfig ErrPermission) ∧ w' = w)
     ∨ (err = Some (ErrWriteConfig ErrNoSpace)
        ∧ ∃ data n r wr,
            yaml_Marshal c = inl data ∧ n < String.length data
            ∧ fs w' !! filename
              = Some (File (String.substring 0 n data) r wr))).
Proof.
  cbv zeta. unfold SaveConfig.
  destruct (yaml_Marshal c) as [data|]; [|split; [done | by right; left]].
  destruct (os_WriteFile_frame filename data w) as (Hg & Hh & He & Hu & Hfs).
  pose proof (os_WriteFile_outcome filename data w) as Hout.
  destruct (os_WriteFile filename data w) as [w1 [err|]]; simpl in *.
  - split; [done|].
    destruct Hout as [[? _]|[[[= ->] ->]|[[= ->] (n & r & wr & Hn & Hfile)]]];
      [done| |].
    + right. right. by left.
    + right. right. right. split; [done|]. by exists data, n, r, wr.
  - split; [done|]. left. split; [done|].
    destruct Hout as [[_ (r & wr & Hfile)]|[[? _]|[? _]]]; [|done..].
    by exists data, r, wr.
Qed.

End SaveFacts.

(** * Properties of the commands *)

Section CommandFacts.
Context `{libs : GoLibs}.

Lemma getConfigFilePath_home w configFile :
  getConfigFilePath w = inl configFile →
  ∃ homeDir, home w = Some homeDir
             ∧ configFile = filepath_Join homeDir ".chcc.yaml".
Proof.
  unfold getConfigFilePath, os_UserHomeDir.
  destruct (home w) as [homeDir|]; [|done]. intros [= <-]. eauto.
Qed.

Lemma getConfigFilePath_same_home w w' :
  home w' = home w → getConfigFilePath w' = getConfigFilePath w.
Proof.
  intros Hhome. unfold getConfigFilePath, os_UserHomeDir. by rewrite Hhome.
Qed.

(** A successful [loadConfig] has found the home directory, and the file
    at the path of the configuration, when there is one, was read. *)
Lemma loadConfig_ok w config :
  loadConfig w = inl config →
  ∃ configFile,
    getConfigFilePath w = inl configFile
    ∧ readable_if_present configFile w.
Proof.
  unfold loadConfig.
  destruct (getConfigFilePath w) as [configFile|] eqn:Hpath; [|done].
  intros Hload. exists configFile. split; [done|].
  intros n Hn. rewrite loadConfig_at_present in Hload by congruence.
  unfold LoadConfig, os_ReadFile in Hload. rewrite Hn in Hload.
  destruct n as [|data [|] wr]; [done| |done]. eauto.
Qed.

Lemma save_or_die_frame config w :
  let w' := (save_or_die config w).1 in
  environ w' = environ w ∧ user_environ w' = user_environ w
  ∧ home w' = home w ∧ GOOS w' = GOOS w
  ∧ (∀ p, getConfigFilePath w ≠ inl p → fs w' !! p = fs w !! p)
  ∧ (∀ f, (save_or_die config w).2 = Some f →
          (getConfigFilePath w = inr f ∧ w' = w)
          ∨ ∃ err, f = FatalSaveConfig err
                   ∧ (err = ErrWriteConfig ErrNoSpace ∨ w' = w)).
Proof.
  cbv zeta. unfold save_or_die.
  destruct (getConfigFilePath w) as [configFile|f0];
    [|split_and!; try done; intros f [= <-]; by left].
  destruct (SaveConfig_world config configFile w)
    as (Hh & Hg & He & Hu & Hfs & Herr).
  destruct (SaveConfig config configFile w) as [w1 [err|]]; simpl in *;
    (split_and!; [done..| |]); try done.
  - intros p Hp. apply Hfs. congruence.
  - intros f [= <-]. right. exists err. split; [done|]. by apply Herr.
  - intros p Hp. apply Hfs. congruence.
Qed.

(** What a command has saved is what the next command loads, as far as
    the codec returns the store from the bytes it wrote for it. *)
Lemma save_or_die_loadConfig config0 config w w' :
  loadConfig w = inl config0 →
  (∀ data, yaml_Marshal config = inl data → yaml_Unmarshal data = inl config) →
  save_or_die config w = (w', None) →
  loadConfig w' = inl config.
Proof.
  intros (configFile & Hpath & Hread)%loadConfig_ok Hcodec.
  unfold save_or_die. rewrite Hpath.
  destruct (SaveConfig config configFile w) as [w1 [err|]] eqn:Hsave;
    [done|].
  intros [= <-].
  destruct (LoadConfig_after_SaveConfig _ _ _ _ Hsave Hread)
    as (data & Hmarshal & Hreadback & Hhome).
  unfold loadConfig. rewrite (getConfigFilePath_same_home w w1 Hhome), Hpath.
  rewrite loadConfig_at_present by (by eapply os_ReadFile_present).
  unfold LoadConfig. by rewrite Hreadback, (Hcodec data Hmarshal).
Qed.

(** Without a home directory every command stops at once, with "Error
    getting user home directory", and has changed nothing. *)
Theorem commands_no_home w :
  home w = None →
  loadConfig w = inr (FatalHomeDir ErrNoHome)
  ∧ (∀ name url token,
       addAPISite name url token w = (w, Some (FatalHomeDir ErrNoHome)))
  ∧ (∀ name, setDefaultAPISite name w = (w, Some (FatalHomeDir ErrNoHome)))
  ∧ (∀ name, removeAPISite name w = (w, Some (FatalHomeDir ErrNoHome))).
Proof.
  intros Hhome.
  assert (Hload : loadConfig w = inr (FatalHomeDir ErrNoHome)).
  { unfold loadConfig, getConfigFilePath, os_UserHomeDir. by rewrite Hhome. }
  unfold addAPISite, setDefaultAPISite, removeAPISite. by rewrite Hload.
Qed.

(** The command [add] changes the configuration file and nothing else: the
    variables of the process and of the user and every other file,
    startup files included, are as before, however the command ends.
    When it stops because the store does not load, nothing at all has
    changed.  When it stops because the store is not saved, nothing has
    changed either, except after a write that was cut short: then the
    configuration file, and it alone, is not what it was. *)
Theorem addAPISite_frame name url token w :
  let w' := (addAPISite name url token w).1 in
  environ w' = environ w ∧ user_environ w' = user_environ w
  ∧ (∀ p, getConfigFilePath w ≠ inl p → fs w' !! p = fs w !! p)
  ∧ (∀ f, (addAPISite name url token w).2 = Some f →
          (loadConfig w = inr f ∧ w' = w)
          ∨ ∃ err, f = FatalSaveConfig err
                   ∧ (err = ErrWriteConfig ErrNoSpace ∨ w' = w)).
Proof.
  cbv zeta. unfold addAPISite.
  destruct (loadConfig w) as [config|f0] eqn:Hload;
    [|split_and!; try done; intros f [= <-]; by left].
  destruct (save_or_die_frame (addAPISite_config config name url token) w)
    as (He & Hu & _ & _ & Hfs & Herr).
  split_and!; [done..|]. intros f Hf.
  destruct (Herr f Hf) as [[Hpath _]|Hsave]; [|by right].
  unfold loadConfig in Hload. by rewrite Hpath in Hload.
Qed.

(** The command [add] followed by a load gives the store [add] computed
    from the store loaded before, when the codec returns that store from
    the bytes it wrote for it. *)
Theorem addAPISite_loadConfig name url token config w w' :
  loadConfig w = inl config →
  (∀ data, yaml_Marshal (addAPISite_config config name url token) = inl data →
           yaml_Unmarshal data
           = inl (addAPISite_config config name url token)) →
  addAPISite name url token w = (w', None) →
  loadConfig w' = inl (addAPISite_config config name url token).
Proof.
  intros Hload Hcodec. unfold addAPISite. rewrite Hload.
  by apply (save_or_die_loadConfig config).
Qed.

(** For a name the loaded store does not have, the commands [set-default]
    and [remove] return without saving, without touching the environment
    and without stopping the process: the world is as before. *)
Theorem unknown_name_commands name config w :
  loadConfig w = inl config →
  ¬ has_site config name →
  setDefaultAPISite name w = (w, None) ∧ removeAPISite name w = (w, None).
Proof.
  intros Hload Hnone%not_has_site_range_find.
  unfold setDefaultAPISite, removeAPISite, SetDefaultAPISite. rewrite Hload.
  by rewrite RemoveAPISite_absent, Hnone.
Qed.

End CommandFacts.

Lemma addAPISite_loadConfig_witness :
  loadConfig (libs := demo_libs) linux_world = inl empty_config
  ∧ loadConfig (libs := demo_libs)
      (addAPISite (libs := demo_libs) "A" "url1" "tok1" linux_world).1
    = inl (addAPISite_config empty_config "A" "url1" "tok1").
Proof.
  split; [reflexivity|].
  apply (addAPISite_loadConfig (libs := demo_libs) "A" "url1" "tok1"
           empty_config linux_world).
  - reflexivity.
  - intros data [= <-]. reflexivity.
  - reflexivity.
Defined.

Lemma commands_no_home_witness :
  home homeless_world = None
  ∧ addAPISite (libs := demo_libs) "A" "url1" "tok1" homeless_world
    = (homeless_world, Some (FatalHomeDir ErrNoHome)).
Proof.
  split; [reflexivity|].
  exact (proj1 (proj2 (commands_no_home (libs := demo_libs) homeless_world
                         eq_refl)) "A" "url1" "tok1").
Defined.

Lemma unknown_name_commands_witness :
  setDefaultAPISite (libs := demo_libs) "C" saved_world = (saved_world, None)
  ∧ removeAPISite (libs := demo_libs) "C" saved_world = (saved_world, None).
Proof.
  apply (unknown_name_commands (libs := demo_libs) "C" config_AB saved_world).
  - reflexivity.
  - apply not_has_site_range_find. reflexivity.
Defined.

Lemma SetEnvironmentVariables_ok c siteName w :
  has_site c siteName → is_Some (home w) →
  (SetEnvironmentVariables c siteName w).2 = None.
Proof.
  intros [[i site] Hfind]%has_site_range_find [homeDir Hhome].
  unfold SetEnvironmentVariables, GetAPISiteByName. rewrite Hfind.
  destruct (decide (GOOS w = "windows")); [done|].
  by destruct (setUnixEnvVars_home (BaseURL site) (Token site) w homeDir
                 Hhome) as [-> _].
Qed.

Section PropagationFacts.
Context `{libs : GoLibs}.

(** The command [set-default] for a name of the loaded store.  When
    saving fails it stops there, before any propagation: no variable is
    set and no file besides the configuration file is touched, and the
    configuration file itself is as it was unless the write was cut
    short.  When the store is saved, the propagation that follows reports
    no error, on any system: the site is in the store and the home
    directory was already found to load the store. *)
Theorem setDefaultAPISite_propagation name config configFile w :
  loadConfig w = inl config →
  has_site config name →
  getConfigFilePath w = inl configFile →
  let config' := mkConfig (APISites config) name in
  let saved := SaveConfig config' configFile w in
  (∀ err, saved.2 = Some err →
     setDefaultAPISite name w = (saved.1, Some (FatalSaveConfig err))
     ∧ environ saved.1 = environ w ∧ user_environ saved.1 = user_environ w
     ∧ (∀ p, p ≠ configFile → fs saved.1 !! p = fs w !! p)
     ∧ (err = ErrWriteConfig ErrNoSpace ∨ saved.1 = w))
  ∧ (saved.2 = None →
       setDefaultAPISite name w
       = ((SetEnvironmentVariables config' name saved.1).1, None)
       ∧ (SetEnvironmentVariables config' name saved.1).2 = None).
Proof.
  intros Hload Hsite Hpath config' saved.
  pose proof Hsite as [[i site] Hfind]%has_site_range_find.
  destruct (getConfigFilePath_home _ _ Hpath) as (homeDir & Hhome & _).
  destruct (SaveConfig_world config' configFile w)
    as (Hhome' & _ & Henv & Huser & Hfs & Herr).
  fold saved in Hhome', Henv, Huser, Hfs, Herr.
  assert (Hrun : setDefaultAPISite name w
                 = match saved with
                   | (w1, Some err) => (w1, Some (FatalSaveConfig err))
                   | (w1, None) =>
                       ((SetEnvironmentVariables config' name w1).1, None)
                   end).
  { unfold setDefaultAPISite, SetDefaultAPISite, save_or_die.
    rewrite Hload, Hfind, Hpath.
    change (set_DefaultAPISite name config) with config'. fold saved.
    by destruct saved as [w1 [err|]]. }
  rewrite Hrun. destruct saved as [w1 [err|]]; simpl in *.
  - split; [|done]. intros err' [= <-]. split_and!; try done.
    by apply Herr.
  - split; [done|]. intros _. split; [done|].
    apply SetEnvironmentVariables_ok; [done | by rewrite Hhome', Hhome].
Qed.

(** The command [remove] for a name of the loaded store, the store having
    pairwise distinct names and a default that is empty or names a site.
    When saving fails it stops there, before any propagation: no variable
    is set and no file besides the configuration file is touched, and the
    configuration file itself is as it was unless the write was cut
    short.  When the store is saved and sites remain with a default, the
    variables are propagated for that default and the propagation reports
    no error; when no site remains, or no default, nothing more is
    done. *)
Theorem removeAPISite_propagation name config configFile w :
  loadConfig w = inl config →
  store_inv config →
  has_site config name →
  getConfigFilePath w = inl configFile →
  let config' := (RemoveAPISite config name).1 in
  let saved := SaveConfig config' configFile w in
  (∀ err, saved.2 = Some err →
     removeAPISite name w = (saved.1, Some (FatalSaveConfig err))
     ∧ environ saved.1 = environ w ∧ user_environ saved.1 = user_environ w
     ∧ (∀ p, p ≠ configFile → fs saved.1 !! p = fs w !! p)
     ∧ (err = ErrWriteConfig ErrNoSpace ∨ saved.1 = w))
  ∧ (saved.2 = None →
       (APISites config' = [] ∨ DefaultAPISite config' = "" →
          removeAPISite name w = (saved.1, None))
       ∧ (APISites config' ≠ [] → DefaultAPISite config' ≠ "" →
            removeAPISite name w
            = ((SetEnvironmentVariables config' (DefaultAPISite config')
                  saved.1).1, None)
            ∧ (SetEnvironmentVariables config' (DefaultAPISite config')
                 saved.1).2 = None)).
Proof.
  intros Hload Hinv Hsite Hpath config' saved.
  pose proof Hsite as [[i site] Hfind]%has_site_range_find.
  destruct (getConfigFilePath_home _ _ Hpath) as (homeDir & Hhome & _).
  destruct (SaveConfig_world config' configFile w)
    as (Hhome' & _ & Henv & Huser & Hfs & Herr).
  fold saved in Hhome', Henv, Huser, Hfs, Herr.
  destruct (RemoveAPISite_inv config name Hinv) as [_ Hdef]. fold config' in Hdef.
  assert (Hrun : removeAPISite name w
                 = match saved with
                   | (w1, Some err) => (w1, Some (FatalSaveConfig err))
                   | (w1, None) =>
                       if decide (0 < length (APISites config')
                                  ∧ DefaultAPISite config' ≠ "") then
                         ((SetEnvironmentVariables config'
                             (DefaultAPISite config') w1).1, None)
                       else (w1, None)
                   end).
  { assert (Hrem : RemoveAPISite config name = (config', true))
      by (subst config'; by rewrite (RemoveAPISite_found _ _ _ _ Hfind)).
    unfold removeAPISite, save_or_die. rewrite Hload, Hrem, Hpath.
    fold saved. by destruct saved as [w1 [err|]]. }
  rewrite Hrun. destruct saved as [w1 [err|]]; simpl in *.
  - split; [|done]. intros err' [= <-]. split_and!; try done.
    by apply Herr.
  - split; [done|]. intros _. split.
    + intros Hnothing. rewrite decide_False; [done|].
      intros [Hlen Hne]. destruct Hnothing as [Hnil|Hempty]; [|done].
      rewrite Hnil in Hlen. simpl in Hlen. lia.
    + intros Hsites Hne. rewrite decide_True.
      * split; [done|].
        apply SetEnvironmentVariables_ok; [auto | by rewrite Hhome', Hhome].
      * split; [|done]. destruct (APISites config'); [done | simpl; lia].
Qed.

End PropagationFacts.

Lemma setDefaultAPISite_propagation_witness :
  setDefaultAPISite (libs := demo_libs) "B" saved_world
  = ((SetEnvironmentVariables (mkConfig (APISites config_AB) "B") "B"
        (SaveConfig (libs := demo_libs) (mkConfig (APISites config_AB) "B")
           config_path saved_world).1).1, None)
  ∧ (SetEnvironmentVariables (mkConfig (APISites config_AB) "B") "B"
       (SaveConfig (libs := demo_libs) (mkConfig (APISites config_AB) "B")
          config_path saved_world).1).2 = None.
Proof.
  assert (Hsite : has_site config_AB "B")
    by (exists site_B; split; [right; left | reflexivity]).
  apply (setDefaultAPISite_propagation (libs := demo_libs) "B" config_AB
           config_path saved_world eq_refl Hsite eq_refl).
  reflexivity.
Defined.

Lemma removeAPISite_propagation_witness :
  removeAPISite (libs := demo_libs) "A" saved_world
  = ((SetEnvironmentVariables (RemoveAPISite config_AB "A").1 "B"
        (SaveConfig (libs := demo_libs) (RemoveAPISite config_AB "A").1
           config_path saved_world).1).1, None)
  ∧ (SetEnvironmentVariables (RemoveAPISite config_AB "A").1 "B"
       (SaveConfig (libs := demo_libs) (RemoveAPISite config_AB "A").1
          config_path saved_world).1).2 = None.
Proof.
  assert (Hsite : has_site config_AB "A")
    by (exists site_A; split; [left | reflexivity]).
  assert (Hinv : store_inv config_AB).
  { split.
    - change (names config_AB) with ["A"; "B"].
      apply NoDup_cons. split; [|apply NoDup_singleton].
      intros Hin%list_elem_of_singleton. discriminate Hin.
    - intros _. exists site_A. split; [left | reflexivity]. }
  destruct (removeAPISite_propagation (libs := demo_libs) "A" config_AB
              config_path saved_world eq_refl Hinv Hsite eq_refl)
    as [_ Hsaved].
  destruct (Hsaved eq_refl) as [_ Hprop].
  apply Hprop; discriminate.
Defined.

(** * Properties of the printing *)

Lemma substring_0_length (n : nat) (s : string) :
  (n ≤ String.length s)%nat → String.length (String.substring 0 n s) = n.
Proof.
  revert n. induction s as [|a s IH]; intros [|n] Hn; simpl in *;
    try done; [lia|].
  rewrite IH; [done | lia].
Qed.

Lemma substring_0_prefix (n : nat) (s : string) :
  ∃ rest, s = String.substring 0 n s +:+ rest.
Proof.
  revert n. induction s as [|a s IH]; intros [|n]; simpl.
  - by exists "".
  - by exists "".
  - by exists (String a s).
  - destruct (IH n) as [rest Hrest]. exists rest.
    exact (f_equal (String a) Hrest).
Qed.

Lemma substring_0_all (n : nat) (s : string) :
  (String.length s ≤ n)%nat → String.substring 0 n s = s.
Proof.
  revert n. induction s as [|a s IH]; intros [|n] Hn; simpl in *;
    try done; [lia|].
  rewrite IH; [done | lia].
Qed.

Lemma min_bounds a b : (min a b ≤ a)%Z ∧ (min a b ≤ b)%Z.
Proof. unfold min. case_decide; lia. Qed.

Lemma slice_to_min_Some token n :
  (0 ≤ n)%Z →
  slice_to token (min (len token) n)
  = Some (String.substring 0 (Z.to_nat (min (len token) n)) token).
Proof.
  intros Hn. unfold slice_to. rewrite decide_True; [done|].
  unfold min, len. case_decide; lia.
Qed.

(** The expression [token[:min(len(token), n)]] that shows a token never
    panics for [n] not negative: it is the token itself when it has at most
    [n] bytes and its first [n] bytes otherwise. *)
Theorem token_shown token n :
  (0 ≤ n)%Z →
  ∃ shown,
    slice_to token (min (len token) n) = Some shown
    ∧ len shown = min (len token) n
    ∧ (len shown ≤ n)%Z
    ∧ (∃ rest, token = shown +:+ rest)
    ∧ ((len token ≤ n)%Z → shown = token).
Proof.
  intros Hn. eexists. split; [by apply slice_to_min_Some|].
  assert (Hlen : len (String.substring 0 (Z.to_nat (min (len token) n)) token)
                 = min (len token) n).
  { unfold len at 1. rewrite substring_0_length; unfold min, len;
      case_decide; lia. }
  split_and!.
  - done.
  - rewrite Hlen. apply min_bounds.
  - apply substring_0_prefix.
  - intros Hshort. apply substring_0_all. unfold min, len in *.
    case_decide; lia.
Qed.

Lemma token_shown_witness :
  ∃ shown,
    slice_to "sk-0123456789abcdefghijklmnop" (min 29 20) = Some shown
    ∧ len shown = min 29 20
    ∧ (len shown ≤ 20)%Z
    ∧ (∃ rest, "sk-0123456789abcdefghijklmnop" = shown +:+ rest)
    ∧ ((29 ≤ 20)%Z → shown = "sk-0123456789abcdefghijklmnop").
Proof.
  apply (token_shown "sk-0123456789abcdefghijklmnop" 20). lia.
Defined.

Lemma PrintConfig_loop_Some i sites :
  ∃ outs, PrintConfig_loop i sites = Some outs
          ∧ length outs = 3 * length sites.
Proof.
  revert i. induction sites as [|site sites IH]; intros i; simpl.
  - by exists [].
  - unfold PrintConfig_site.
    rewrite slice_to_min_Some by lia. simpl.
    destruct (IH (S i)) as (outs & -> & Hlen). simpl.
    eexists. split; [done|]. simpl. lia.
Qed.

(** [PrintConfig] never panics, whatever the lengths of the tokens, and
    prints two lines and three more for each site. *)
Theorem PrintConfig_no_panic c :
  ∃ outs, PrintConfig c = Some outs
          ∧ length outs = 2 + 3 * length (APISites c).
Proof.
  unfold PrintConfig.
  destruct (PrintConfig_loop_Some 0 (APISites c)) as (outs & -> & Hlen).
  simpl. eexists. split; [done|]. simpl. lia.
Qed.

(** [listAPISites] never panics.  For a store without sites it prints the
    two lines that say so.  For a store with sites it prints the store
    and then always the name, URL and shown token of the site
    [GetDefaultAPISite] returns, which is never [nil] there: the branch
    "No default API site set" is not taken. *)
Theorem listAPISites_config_spec config :
  (APISites config = [] →
     listAPISites_config config
     = Some ["No API sites configured." +:+ nl;
             nl +:+ "Use 'chcc add --help' to add your first API site."
             +:+ nl])
  ∧ (APISites config ≠ [] →
       ∃ printed defaultSite shown,
         PrintConfig config = Some printed
         ∧ GetDefaultAPISite config = Some defaultSite
         ∧ slice_to (Token defaultSite) (min (len (Token defaultSite)) 10)
           = Some shown
         ∧ listAPISites_config config
           = Some ((("=== CHCC Configuration ===" +:+ nl) :: printed)
                   ++ [nl +:+ "=== Default API Site ===" +:+ nl;
                       "Name: " +:+ Name defaultSite +:+ nl;
                       "URL: " +:+ BaseURL defaultSite +:+ nl;
                       "Token: " +:+ shown +:+ "..." +:+ nl])).
Proof.
  unfold listAPISites_config. split.
  - intros ->. done.
  - intros Hsites.
    rewrite decide_False by (by destruct (APISites config)).
    assert (Hprinted : ∃ printed, PrintConfig config = Some printed).
    { unfold PrintConfig.
      destruct (PrintConfig_loop_Some 0 (APISites config)) as (outs & -> & _).
      by eexists. }
    destruct Hprinted as [printed Hprinted].
    assert (Hdefault : ∃ defaultSite, GetDefaultAPISite config
                                      = Some defaultSite).
    { unfold GetDefaultAPISite.
      destruct (range_find _ _) as [[i site]|]; [by eexists|].
      destruct (APISites config) as [|site sites]; [done|].
      simpl. by eexists. }
    destruct Hdefault as [defaultSite Hdefault].
    exists printed, defaultSite. eexists.
    rewrite Hprinted, Hdefault. simpl.
    rewrite slice_to_min_Some by lia. simpl. done.
Qed.

(** * The commands, from one run to the next *)

Lemma setWindowsEnvVars_frame baseURL authToken w :
  let w' := (setWindowsEnvVars baseURL authToken w).1 in
  home w' = home w ∧ fs w' = fs w.
Proof.
  unfold setWindowsEnvVars. simpl.
  set (w1 := (os_Setenv "ANTHROPIC_BASE_URL" baseURL w).1).
  set (w2 := (os_Setenv "ANTHROPIC_AUTH_TOKEN" authToken w1).1).
  set (w3 := (exec_setx "ANTHROPIC_BASE_URL" baseURL w2).1).
  destruct (os_Setenv_frame "ANTHROPIC_BASE_URL" baseURL w) as (_ & Hh1 & Hf1).
  destruct (os_Setenv_frame "ANTHROPIC_AUTH_TOKEN" authToken w1)
    as (_ & Hh2 & Hf2).
  destruct (exec_setx_frame "ANTHROPIC_BASE_URL" baseURL w2)
    as (_ & Hh3 & Hf3 & _).
  destruct (exec_setx_frame "ANTHROPIC_AUTH_TOKEN" authToken w3)
    as (_ & Hh4 & Hf4 & _).
  fold w1 in Hh1, Hf1. fold w2 in Hh2, Hf2. fold w3 in Hh3, Hf3.
  split; congruence.
Qed.

(** The propagation keeps the home directory and every file that is not
    a startup file of that directory. *)
Lemma SetEnvironmentVariables_world c siteName w :
  let w' := (SetEnvironmentVariables c siteName w).1 in
  home w' = home w
  ∧ ∀ homeDir p, home w = Some homeDir → p ∉ rc_files homeDir →
                 fs w' !! p = fs w !! p.
Proof.
  unfold SetEnvironmentVariables.
  destruct (GetAPISiteByName c siteName) as [site|]; [|done]. simpl.
  destruct (decide (GOOS w = "windows")).
  - destruct (setWindowsEnvVars_frame (BaseURL site) (Token site) w)
      as [Hh Hf].
    split; [done|]. intros homeDir p _ _. by rewrite Hf.
  - destruct (setUnixEnvVars_frame (BaseURL site) (Token site) w)
      as (_ & Hh & _).
    split; [done|]. intros homeDir p Hhome Hp.
    destruct (setUnixEnvVars_home (BaseURL site) (Token site) w homeDir Hhome)
      as [_ ->].
    destruct (fs w !! p) as [[|data r [|]]|]; try done.
    by rewrite decide_False.
Qed.

Section NextRun.
Context `{libs : GoLibs}.

(** [loadConfig] depends on the home directory and on the file at the path
    of the configuration only. *)
Lemma loadConfig_same w w' :
  home w' = home w →
  (∀ configFile, getConfigFilePath w = inl configFile →
                 fs w' !! configFile = fs w !! configFile) →
  loadConfig w' = loadConfig w.
Proof.
  intros Hhome Hfs. unfold loadConfig.
  rewrite (getConfigFilePath_same_home w w' Hhome).
  destruct (getConfigFilePath w) as [configFile|]; [|done].
  unfold loadConfig_at, LoadConfig, os_Stat, os_ReadFile.
  by rewrite (Hfs configFile eq_refl).
Qed.

Lemma propagation_loadConfig c siteName w homeDir :
  home w = Some homeDir →
  filepath_Join homeDir ".chcc.yaml" ∉ rc_files homeDir →
  loadConfig (SetEnvironmentVariables c siteName w).1 = loadConfig w.
Proof.
  intros Hhome Hpath.
  destruct (SetEnvironmentVariables_world c siteName w) as [Hh Hfs].
  apply loadConfig_same; [done|].
  intros configFile (homeDir' & Hhome' & ->)%getConfigFilePath_home.
  apply (Hfs homeDir); [done|]. congruence.
Qed.

(** After the command [set-default] has returned for a name of the loaded
    store, the next load gives the same sites with that name as default,
    when the codec returns that store from the bytes it wrote for it and
    the configuration file is not one of the startup files. *)
Theorem setDefaultAPISite_loadConfig name config w w' homeDir :
  loadConfig w = inl config →
  has_site config name →
  home w = Some homeDir →
  filepath_Join homeDir ".chcc.yaml" ∉ rc_files homeDir →
  (∀ data, yaml_Marshal (mkConfig (APISites config) name) = inl data →
           yaml_Unmarshal data = inl (mkConfig (APISites config) name)) →
  setDefaultAPISite name w = (w', None) →
  loadConfig w' = inl (mkConfig (APISites config) name).
Proof.
  intros Hload [[i site] Hfind]%has_site_range_find Hhome Hpath Hcodec.
  unfold setDefaultAPISite, SetDefaultAPISite. rewrite Hload, Hfind.
  change (set_DefaultAPISite name config)
    with (mkConfig (APISites config) name).
  destruct (save_or_die _ w) as [w1 [f|]] eqn:Hsave; [done|].
  intros [= <-].
  destruct (save_or_die_frame (mkConfig (APISites config) name) w)
    as (_ & _ & Hh & _).
  rewrite Hsave in Hh. simpl in Hh.
  rewrite (propagation_loadConfig _ _ _ homeDir) by congruence.
  by apply (save_or_die_loadConfig config _ w).
Qed.

(** After the command [remove] has returned for a name of the loaded
    store, the next load gives the store [RemoveAPISite] computed, under
    the same two conditions. *)
Theorem removeAPISite_loadConfig name config w w' homeDir :
  loadConfig w = inl config →
  has_site config name →
  home w = Some homeDir →
  filepath_Join homeDir ".chcc.yaml" ∉ rc_files homeDir →
  (∀ data, yaml_Marshal (RemoveAPISite config name).1 = inl data →
           yaml_Unmarshal data = inl (RemoveAPISite config name).1) →
  removeAPISite name w = (w', None) →
  loadConfig w' = inl (RemoveAPISite config name).1.
Proof.
  intros Hload [[i site] Hfind]%has_site_range_find Hhome Hpath.
  unfold removeAPISite. rewrite Hload.
  rewrite (RemoveAPISite_found _ _ _ _ Hfind). simpl.
  set (config' := mkConfig _ _). intros Hcodec.
  destruct (save_or_die config' w) as [w1 [f|]] eqn:Hsave; [done|].
  destruct (save_or_die_frame config' w) as (_ & _ & Hh & _).
  rewrite Hsave in Hh. simpl in Hh.
  pose proof (save_or_die_loadConfig config config' w w1 Hload Hcodec Hsave)
    as Hnext.
  case_decide; intros [= <-]; [|done].
  by rewrite (propagation_loadConfig _ _ _ homeDir) by congruence.
Qed.

End NextRun.

Lemma setDefaultAPISite_loadConfig_witness :
  loadConfig (libs := demo_libs)
    (setDefaultAPISite (libs := demo_libs) "B" saved_world).1
  = inl (mkConfig (APISites config_AB) "B").
Proof.
  apply (setDefaultAPISite_loadConfig (libs := demo_libs) "B" config_AB
           saved_world _ "/home/u").
  - reflexivity.
  - exists site_B. split; [right; left | reflexivity].
  - reflexivity.
  - intros Hin. repeat (apply elem_of_cons in Hin as [Hin|Hin];
                        [discriminate Hin|]).
    by apply elem_of_nil in Hin.
  - intros data [= <-]. reflexivity.
  - reflexivity.
Defined.

Lemma removeAPISite_loadConfig_witness :
  loadConfig (libs := demo_libs)
    (removeAPISite (libs := demo_libs) "A" saved_world).1
  = inl (RemoveAPISite config_AB "A").1.
Proof.
  apply (removeAPISite_loadConfig (libs := demo_libs) "A" config_AB
           saved_world _ "/home/u").
  - reflexivity.
  - exists site_A. split; [left | reflexivity].
  - reflexivity.
  - intros Hin. repeat (apply elem_of_cons in Hin as [Hin|Hin];
                        [discriminate Hin|]).
    by apply elem_of_nil in Hin.
  - intros data [= <-]. reflexivity.
  - reflexivity.
Defined.

Lemma addAPISite_default_named_witness :
  reachable_named config_AB
  ∧ (APISites config_AB ≠ [] →
     DefaultAPISite (addAPISite_config config_AB "C" "url3" "tok3")
     = DefaultAPISite config_AB).
Proof.
  assert (Hreach : reachable_named config_AB).
  { apply (reachable_named_add
             (addAPISite_config empty_config "A" "url1" "tok1")
             "B" "url2" "tok2"); [discriminate|].
    apply reachable_named_add; [discriminate | apply reachable_named_empty]. }
  split; [exact Hreach|].
  exact (proj2 (addAPISite_default_named config_AB "C" "url3" "tok3" Hreach)).
Defined.


(** A save on a full disk, with the stand-in codec: [SaveConfig] returns
    the error of the write and the file, which held the two sites, holds
    the ten bytes that got through. *)
Example SaveConfig_short_write :
  fs full_disk_world !! config_path
  = Some (File ("api_sites:" +:+ nl
                +:+ demo_marshal_site site_A +:+ demo_marshal_site site_B
                +:+ "default_api_site: A" +:+ nl) true true)
  ∧ (SaveConfig (libs := demo_libs) (mkConfig [site_A; site_B] "B")
       config_path full_disk_world).2
    = Some (ErrWriteConfig ErrNoSpace)
  ∧ fs (SaveConfig (libs := demo_libs) (mkConfig [site_A; site_B] "B")
          config_path full_disk_world).1 !! config_path
    = Some (File "api_sites:" true true).
Proof. vm_compute. done. Qed.
